(** * google-offline-access: the credential lifecycle manager

    A shallow embedding of [src/index.ts] (class [GoogleOfflineAccess]) and of
    the parts of Node ([fs], [path], [process.env], [Date.now]) and of the
    OAuth2 client it calls, followed by the properties of the manager.

    Conventions of the model
    - JavaScript numbers that the program handles are millisecond timestamps
      and their differences; they are integers far inside the exactly
      representable range, so they are modelled by [Z] and [NaN] by [None].
    - A file holds text; [JSON.parse] either rejects it or yields one of the
      two documents the program reads: a client secret or a token set.
    - Effects are threaded through a small state/exception monad whose runs
      also report the calls made to the outside world, in order. *)

From Stdlib Require Import Ascii String.
From stdpp Require Import gmap strings list pretty.

Local Open Scope Z_scope.

(** ** JavaScript values *)

(** An optional property of type [A | null]: absent, [null], or a value. *)
Inductive js (A : Type) : Type :=
  | undefined
  | null
  | val (a : A).
Arguments undefined {A}.
Arguments null {A}.
Arguments val {A} a.

(** [ToBoolean]: what [if (x)], [!x], [x && y] and [x ? a : b] test. *)
Class ToBoolean (A : Type) := to_boolean : A -> bool.

#[export] Instance string_to_boolean : ToBoolean string :=
  fun s => match s with EmptyString => false | String _ _ => true end.

#[export] Instance number_to_boolean : ToBoolean Z :=
  fun n => negb (n =? 0).

#[export] Instance js_to_boolean {A} `{ToBoolean A} : ToBoolean (js A) :=
  fun x => match x with val a => to_boolean a | _ => false end.

#[export] Instance optional_to_boolean {A} `{ToBoolean A} : ToBoolean (option A) :=
  fun x => match x with Some a => to_boolean a | None => false end.

(** [ToNumber] on [number | null | undefined]; [None] is [NaN]. *)
Definition ToNumber (x : js Z) : option Z :=
  match x with
  | undefined => None
  | null => Some 0
  | val n => Some n
  end.

(** [a > b] where [b] went through [ToNumber]: false against [NaN]. *)
Definition gt (a : Z) (b : option Z) : bool :=
  match b with
  | Some n => a >? n
  | None => false
  end.

(** ['Token is still valid for ' + Math.floor((e - now) / 60e3) + ' minutes']:
    the number printed between the two fragments. *)
Definition minutes_left (e : option Z) (now : Z) : string :=
  match e with
  | Some n => pretty (Z.div (n - now) 60000)
  | None => "NaN"
  end.

(** [a ?? b] on an optional property. *)
Definition nullish {A} (a : option A) (b : A) : A :=
  match a with
  | Some x => x
  | None => b
  end.
Infix "??" := nullish (at level 45, right associativity).

(** [a ?? b] where [b] may itself be absent. *)
Definition nullish_optional {A} (a b : option A) : option A :=
  match a with
  | Some x => Some x
  | None => b
  end.

(** An optional property read as a value. *)
Definition optional {A} (a : option A) : js A :=
  match a with
  | Some x => val x
  | None => undefined
  end.

(** ** Documents *)

(** [Credentials] of the OAuth2 library, restricted to the three properties the
    manager reads or writes. *)
Record Credentials : Type := {
  refresh_token : js string;
  expiry_date : js Z;
  access_token : js string;
}.

(** [credentials.refresh_token = token] *)
Definition set_refresh_token (token : js string) (c : Credentials) : Credentials :=
  {| refresh_token := token; expiry_date := expiry_date c;
     access_token := access_token c |}.

(** [{}] *)
Definition no_credentials : Credentials :=
  {| refresh_token := undefined; expiry_date := undefined; access_token := undefined |}.

(** The [web] object of the client-secret file. *)
Record ClientSecret : Type := {
  client_id : string;
  client_secret : string;
  redirect_uris : list string;
}.

(** What [JSON.parse] can return here: [{ web: ... }] or a token set. *)
Inductive document : Type :=
  | SecretDocument (web : ClientSecret)
  | TokenDocument (tokens : Credentials).

(** The text of a file. *)
Inductive text : Type :=
  | Malformed
  | Json (d : document).

(** ** Errors and results *)

Inductive errno := ENOENT | EISDIR | ENOTDIR | EEXIST.

Inductive error : Type :=
  | SystemError (code : errno) (path : string)
  | SyntaxError
  | TypeError
  | Error (message : string).

Inductive result (A : Type) : Type :=
  | Ok (a : A)
  | Throw (e : error).
Arguments Ok {A} a.
Arguments Throw {A} e.

(** ** The OAuth2 client object *)

Record OAuth2Client : Type := {
  _clientId : string;
  _clientSecret : string;
  redirectUri : option string;
  credentials : Credentials;
}.

(** [new OAuth2Client(id, secret, uri)] *)
Definition new_OAuth2Client (id secret : string) (uri : option string) : OAuth2Client :=
  {| _clientId := id; _clientSecret := secret; redirectUri := uri;
     credentials := no_credentials |}.

(** [client.setCredentials(c)] *)
Definition setCredentials (client : OAuth2Client) (c : Credentials) : OAuth2Client :=
  {| _clientId := _clientId client; _clientSecret := _clientSecret client;
     redirectUri := redirectUri client; credentials := c |}.

(** ** The outside world *)

(** Where [this.log] sends messages: the default
    [(text) => console.log('[GoogleOfflineAccess]', text)] or a function
    supplied by the caller. *)
Inductive sink : Type :=
  | console_log
  | custom (name : string).

(** Calls that leave the manager, in the order they are made. A call is
    recorded whether or not it succeeds. *)
Inductive event : Type :=
  | existsSync_call (path : string)
  | readFileSync_call (path : string)
  | mkdirSync_call (path : string)
  | writeFileSync_call (path : string) (data : text)
  | Date_now_call
  | getToken_call (code : string)
  | refreshAccessToken_call (installed : Credentials)
  | log_call (to : sink) (message : string).

(** The token endpoint. Its answer may differ from one request to the next, so
    it is a function of the number of requests made before. *)
Record Upstream : Type := {
  getToken_response : nat -> string -> result Credentials;
  refreshAccessToken_response : nat -> Credentials -> result Credentials;
}.

Inductive node : Type :=
  | Directory
  | File (contents : text).

Record World : Type := {
  fs : gmap string node;
  env : gmap string string;
  clock : nat -> Z;
  ticks : nat;
  upstream : Upstream;
  requests : nat;
}.

(** The value the next [Date.now()] returns. *)
Definition now (w : World) : Z := clock w (ticks w).

Definition set_fs (f : gmap string node) (w : World) : World :=
  {| fs := f; env := env w; clock := clock w; ticks := ticks w;
     upstream := upstream w; requests := requests w |}.

Definition tick (w : World) : World :=
  {| fs := fs w; env := env w; clock := clock w; ticks := S (ticks w);
     upstream := upstream w; requests := requests w |}.

Definition count_request (w : World) : World :=
  {| fs := fs w; env := env w; clock := clock w; ticks := ticks w;
     upstream := upstream w; requests := S (requests w) |}.

Definition set_env (e : gmap string string) (w : World) : World :=
  {| fs := fs w; env := e; clock := clock w; ticks := ticks w;
     upstream := upstream w; requests := requests w |}.

(** ** The monad of synchronous and awaited code *)

Record outcome (A : Type) : Type := Outcome {
  returned : result A;
  after : World;
  emitted : list event;
}.
Arguments Outcome {A} returned after emitted.
Arguments returned {A} o.
Arguments after {A} o.
Arguments emitted {A} o.

Definition M (A : Type) : Type := World -> outcome A.

Definition ret {A} (a : A) : M A :=
  fun w => Outcome (Ok a) w [].

Definition throw {A} (e : error) : M A :=
  fun w => Outcome (Throw e) w [].

Definition bind {A B} (m : M A) (k : A -> M B) : M B :=
  fun w =>
    let o := m w in
    match returned o with
    | Ok a =>
        let o' := k a (after o) in
        Outcome (returned o') (after o') (emitted o ++ emitted o')
    | Throw e => Outcome (Throw e) (after o) (emitted o)
    end.

Declare Scope js_scope.
Delimit Scope js_scope with js.
Notation "x <- c ;; k" := (bind c (fun x => k))
  (at level 100, c at next level, right associativity) : js_scope.
Notation "c ;;; k" := (bind c (fun _ => k))
  (at level 100, right associativity) : js_scope.
Local Open Scope js_scope.

(** Lift a pure fallible step. *)
Definition lift {A} (r : result A) : M A :=
  fun w => Outcome r w [].

(** Record a call and go on. *)
Definition emit (e : event) : M unit :=
  fun w => Outcome (Ok tt) w [e].

(** [try { m } catch { }] as a caller would write it. *)
Definition attempt {A} (m : M A) : M (result A) :=
  fun w => let o := m w in Outcome (Ok (returned o)) (after o) (emitted o).

(** ** Node: [path], [fs], [JSON], [Date] *)

Module path.

Definition is_slash (c : option ascii) : bool :=
  match c with
  | Some c => if decide (c = "/"%char) then true else false
  | None => false
  end.

(** The loop of [dirname]: [i] runs from [path.length - 1] down to [1];
    the answer is [end], or [None] for [-1]. *)
Fixpoint scan (p : string) (i : nat) (matchedSlash : bool) : option nat :=
  match i with
  | O => None
  | S j =>
      if is_slash (String.get i p)
      then (if matchedSlash then scan p j true else Some i)
      else scan p j false
  end.

(** POSIX [path.dirname]. *)
Definition dirname (p : string) : string :=
  match String.length p with
  | O => "."
  | S n =>
      let hasRoot := is_slash (String.get 0 p) in
      match scan p n true with
      | None => if hasRoot then "/" else "."
      | Some e =>
          if hasRoot && (e =? 1)%nat then "//" else String.substring 0 e p
      end
  end.

(** The proper prefixes of [p] that end just before a separator: the
    directories [mkdir -p] walks through before reaching [p] itself.
    [seen] is the part already read and [last] its last character. *)
Fixpoint walk (seen : string) (last : option ascii) (rest : string) : list string :=
  match rest with
  | EmptyString => []
  | String c r =>
      let more := walk (seen +:+ String c EmptyString) (Some c) r in
      if is_slash (Some c) && negb (is_slash last) && to_boolean seen
      then seen :: more
      else more
  end.

Definition parents (p : string) : list string := walk "" None p.

End path.

Module JSON.

Definition parse (t : text) : M document :=
  match t with
  | Malformed => throw SyntaxError
  | Json d => ret d
  end.

Definition stringify (d : document) : text := Json d.

End JSON.

(** Property reads on a parsed document. *)
Definition get_web (d : document) : option ClientSecret :=
  match d with
  | SecretDocument web => Some web
  | TokenDocument _ => None
  end.

Definition get_tokens (d : document) : Credentials :=
  match d with
  | SecretDocument _ => no_credentials
  | TokenDocument tokens => tokens
  end.

Module Date.

Definition now : M Z :=
  fun w => Outcome (Ok (clock w (ticks w))) (tick w) [Date_now_call].

End Date.

Module fs.

(** The working directory and the root always exist. *)
Definition stat (f : gmap string node) (p : string) : option node :=
  if decide (p = ".") then Some Directory
  else if decide (p = "/") then Some Directory
  else f !! p.

Definition existsSync (p : string) : M bool :=
  fun w =>
    Outcome (Ok match stat (fs w) p with Some _ => true | None => false end)
            w [existsSync_call p].

Definition readFileSync (p : string) : M text :=
  fun w =>
    Outcome
      match stat (fs w) p with
      | Some (File t) => Ok t
      | Some Directory => Throw (SystemError EISDIR p)
      | None => Throw (SystemError ENOENT p)
      end
      w [readFileSync_call p].

(** Where a write of [p] ends: an existing file is replaced, a new file
    needs its parent directory. *)
Definition write (f : gmap string node) (p : string) (data : text)
  : result (gmap string node) :=
  match stat f p with
  | Some (File _) => Ok (<[p := File data]> f)
  | Some Directory => Throw (SystemError EISDIR p)
  | None =>
      match stat f (path.dirname p) with
      | Some Directory => Ok (<[p := File data]> f)
      | Some (File _) => Throw (SystemError ENOTDIR p)
      | None => Throw (SystemError ENOENT p)
      end
  end.

Definition writeFileSync (p : string) (data : text) : M unit :=
  fun w =>
    match write (fs w) p data with
    | Ok f => Outcome (Ok tt) (set_fs f w) [writeFileSync_call p data]
    | Throw e => Outcome (Throw e) w [writeFileSync_call p data]
    end.

(** One step of [mkdir -p]: [d] is kept if it is a directory, created if
    it is missing, and a file in the way is an error. *)
Definition mkdir1 (target : string) (f : result (gmap string node)) (d : string)
  : result (gmap string node) :=
  match f with
  | Throw e => Throw e
  | Ok f =>
      match stat f d with
      | Some Directory => Ok f
      | Some (File _) =>
          Throw (SystemError (if decide (d = target) then EEXIST else ENOTDIR) target)
      | None => Ok (<[d := Directory]> f)
      end
  end.

Definition mkdirp (f : gmap string node) (p : string) : result (gmap string node) :=
  foldl (mkdir1 p) (Ok f) (path.parents p ++ [p]).

(** [fs.mkdirSync(p, { recursive: true })] *)
Definition mkdirSync_recursive (p : string) : M unit :=
  fun w =>
    match mkdirp (fs w) p with
    | Ok f => Outcome (Ok tt) (set_fs f w) [mkdirSync_call p]
    | Throw e => Outcome (Throw e) w [mkdirSync_call p]
    end.

End fs.

(** ** The OAuth2 collaborator *)

(** [await authClient.getToken(code)], reduced to [response.tokens]. *)
Definition getToken (authClient : OAuth2Client) (code : string) : M Credentials :=
  fun w =>
    Outcome (getToken_response (upstream w) (requests w) code)
            (count_request w) [getToken_call code].

(** [await authClient.refreshAccessToken()], reduced to
    [response.credentials]; the request carries the credentials last set on
    the client. *)
Definition refreshAccessToken (authClient : OAuth2Client) : M Credentials :=
  fun w =>
    Outcome (refreshAccessToken_response (upstream w) (requests w) (credentials authClient))
            (count_request w) [refreshAccessToken_call (credentials authClient)].

(** ** [GoogleOfflineAccess] *)

(** [string | false] *)
Inductive string_or_false : Type :=
  | false_
  | str (s : string).

#[export] Instance string_or_false_to_boolean : ToBoolean string_or_false :=
  fun x => match x with false_ => false | str s => to_boolean s end.

Module GoogleOfflineAccessOptions.

Record t : Type := {
  scopes : list string;
  clientSecretFile : option string;
  authStateFile : option string_or_false;
  defaultRefreshToken : option string;
  log : option sink;
}.

End GoogleOfflineAccessOptions.

Record GoogleOfflineAccess : Type := {
  scopes : list string;
  clientSecretFile : string;
  authStateFile : string_or_false;
  defaultRefreshToken : option string;
  log : sink;
}.

(** [process.env.NAME] *)
Definition process_env (name : string) : M (option string) :=
  fun w => Outcome (Ok (env w !! name)) w [].

(** [new GoogleOfflineAccess(options)] *)
Definition constructor (options : GoogleOfflineAccessOptions.t) : M GoogleOfflineAccess :=
  GOOGLE_CLIENT_SECRET_FILE <- process_env "GOOGLE_CLIENT_SECRET_FILE" ;;
  GOOGLE_AUTH_STATE_FILE <- process_env "GOOGLE_AUTH_STATE_FILE" ;;
  GOOGLE_REFRESH_TOKEN <- process_env "GOOGLE_REFRESH_TOKEN" ;;
  ret {|
    scopes := GoogleOfflineAccessOptions.scopes options;
    clientSecretFile :=
      GoogleOfflineAccessOptions.clientSecretFile options
      ?? GOOGLE_CLIENT_SECRET_FILE
      ?? ".data/google_client_secret.json";
    authStateFile :=
      GoogleOfflineAccessOptions.authStateFile options
      ?? (str <$> GOOGLE_AUTH_STATE_FILE)
      ?? str ".data/google_auth.json";
    defaultRefreshToken :=
      nullish_optional (GoogleOfflineAccessOptions.defaultRefreshToken options)
                       GOOGLE_REFRESH_TOKEN;
    log := GoogleOfflineAccessOptions.log options ?? console_log;
  |}.

(** [this.log(message)] *)
Definition log_ (this : GoogleOfflineAccess) (message : string) : M unit :=
  emit (log_call (log this) message).

Definition createAuthClient (this : GoogleOfflineAccess) : M OAuth2Client :=
  contents <- fs.readFileSync (clientSecretFile this) ;;
  client <- JSON.parse contents ;;
  match get_web client with
  | None => throw TypeError
  | Some web =>
      ret (new_OAuth2Client (client_id web) (client_secret web) (head (redirect_uris web)))
  end.

(** Lines 111-120 of [getAuthenticatedAuthClient]: the credential set the
    call starts from. *)
Definition cachedCredentials (this : GoogleOfflineAccess) : M Credentials :=
  let credentials := no_credentials in
  let credentials :=
    if to_boolean (defaultRefreshToken this)
    then set_refresh_token (optional (defaultRefreshToken this)) credentials
    else credentials in
  if to_boolean (authStateFile this) then
    match authStateFile this with
    | str file =>
        there <- fs.existsSync file ;;
        if (there : bool) then
          contents <- fs.readFileSync file ;;
          parsed <- JSON.parse contents ;;
          let token := get_tokens parsed in
          ret {| refresh_token := refresh_token token;
                 expiry_date := expiry_date token;
                 access_token := access_token token |}
        else ret credentials
    | false_ => ret credentials
    end
  else ret credentials.

Definition missing_refresh_token : string :=
  "No refresh token found. Please provide one via the GOOGLE_REFRESH_TOKEN environment variable.".

Definition getAuthenticatedAuthClient (this : GoogleOfflineAccess) : M OAuth2Client :=
  authClient <- createAuthClient this ;;
  credentials <- cachedCredentials this ;;
  stale <-
    (if negb (to_boolean (expiry_date credentials)) then ret true
     else (t <- Date.now ;; ret (gt (t + 300000) (ToNumber (expiry_date credentials))))) ;;
  if (stale : bool) then
    log_ this
      (if to_boolean (expiry_date credentials)
       then "Token expired, renewing..."
       else "No token found, getting new one...") ;;;
    if negb (to_boolean (refresh_token credentials)) then
      throw (Error missing_refresh_token)
    else
      let authClient := setCredentials authClient credentials in
      response <- refreshAccessToken authClient ;;
      let newCredentials :=
        {| refresh_token := refresh_token credentials;
           expiry_date := expiry_date response;
           access_token := access_token response |} in
      (if to_boolean (authStateFile this) then
         match authStateFile this with
         | str file =>
             fs.writeFileSync file (JSON.stringify (TokenDocument newCredentials))
         | false_ => ret tt
         end
       else ret tt) ;;;
      ret (setCredentials authClient newCredentials)
  else
    t <- Date.now ;;
    log_ this
      ("Token is still valid for "
       +:+ minutes_left (ToNumber (expiry_date credentials)) t
       +:+ " minutes") ;;;
    ret (setCredentials authClient credentials).

Definition login (this : GoogleOfflineAccess) (code : string) : M unit :=
  authClient <- createAuthClient this ;;
  credentials <- getToken authClient code ;;
  if to_boolean (authStateFile this) then
    match authStateFile this with
    | str file =>
        fs.mkdirSync_recursive (path.dirname file) ;;;
        fs.writeFileSync file (JSON.stringify (TokenDocument credentials))
    | false_ => ret tt
    end
  else ret tt.

(** ** Callers *)

(** What a caller may do with a constructed manager. *)
Inductive call : Type :=
  | call_login (code : string)
  | call_getAuthenticatedAuthClient.

(** One call whose rejection, if any, the caller catches. *)
Definition perform (this : GoogleOfflineAccess) (c : call) : M (result unit) :=
  match c with
  | call_login code => attempt (login this code)
  | call_getAuthenticatedAuthClient =>
      attempt (getAuthenticatedAuthClient this ;;; ret tt)
  end.

(** The calls of [cs], one after the other; the answers are listed in the
    same order. *)
Fixpoint session (this : GoogleOfflineAccess) (cs : list call) : M (list (result unit)) :=
  match cs with
  | [] => ret []
  | c :: cs =>
      r <- perform this c ;;
      rs <- session this cs ;;
      ret (r :: rs)
  end.

(** ** Observations on a run *)

Definition is_refresh (e : event) : bool :=
  match e with refreshAccessToken_call _ => true | _ => false end.

Definition is_write (e : event) : bool :=
  match e with writeFileSync_call _ _ => true | _ => false end.

Definition is_log (e : event) : bool :=
  match e with log_call _ _ => true | _ => false end.

Definition is_read_of (p : string) (e : event) : bool :=
  match e with
  | readFileSync_call q => if decide (q = p) then true else false
  | _ => false
  end.

(** How many of the calls in [evs] satisfy [f]. *)
Definition count (f : event -> bool) (evs : list event) : nat :=
  length (filter (fun e => f e = true) evs).

(** The messages handed to [this.log], in order. *)
Definition logged (evs : list event) : list string :=
  omap (fun e => match e with log_call _ m => Some m | _ => None end) evs.

(** The path of the store, when persistence is on. *)
Definition store_path (this : GoogleOfflineAccess) : option string :=
  match authStateFile this with
  | str file => if to_boolean file then Some file else None
  | false_ => None
  end.

(** The token set the manager reads from the file at [p], if that file
    exists and parses. *)
Definition stored (w : World) (p : string) : option Credentials :=
  match fs.stat (fs w) p with
  | Some (File (Json d)) => Some (get_tokens d)
  | _ => None
  end.

(** The credential set after line 114: empty, or seeded with a truthy
    default refresh token. *)
Definition seeded (this : GoogleOfflineAccess) : Credentials :=
  if to_boolean (defaultRefreshToken this)
  then set_refresh_token (optional (defaultRefreshToken this)) no_credentials
  else no_credentials.

(** The freshness test as the code decides it: [expiry_date] is a non-zero
    number and the clock plus the margin has not passed it. *)
Definition usable (c : Credentials) (t : Z) : Prop :=
  exists e, expiry_date c = val e /\ e <> 0 /\ t + 300000 <= e.

(** The same test with the strict comparison. *)
Definition strictly_before_expiry (c : Credentials) (t : Z) : Prop :=
  exists e, expiry_date c = val e /\ t + 300000 < e.

(** The two prefixes every run of [getAuthenticatedAuthClient] shares. *)
Definition preamble (this : GoogleOfflineAccess) (w : World) : list event :=
  readFileSync_call (clientSecretFile this) :: emitted (cachedCredentials this w).
Arguments preamble : simpl never.

(** What the refresh branch does before it needs the refresh token: the
    clock is read only when [expiry_date] is truthy, and the message depends
    on the same test. *)
Definition test_calls (c : Credentials) : list event :=
  if to_boolean (expiry_date c) then [Date_now_call] else [].

Definition after_test (c : Credentials) (w : World) : World :=
  if to_boolean (expiry_date c) then tick w else w.

Definition renewal_message (c : Credentials) : string :=
  if to_boolean (expiry_date c)
  then "Token expired, renewing..."
  else "No token found, getting new one...".

(** The credential set a successful refresh leads to. *)
Definition renewed (c response : Credentials) : Credentials :=
  {| refresh_token := refresh_token c;
     expiry_date := expiry_date response;
     access_token := access_token response |}.

(** The answer the token endpoint gives to the refresh of this run. *)
Definition refresh_answer (w : World) (c : Credentials) : result Credentials :=
  refreshAccessToken_response (upstream w) (requests w) c.

(** The write of lines 142-147, by the path of the store. *)
Definition persist (this : GoogleOfflineAccess) (c : Credentials) : M unit :=
  match store_path this with
  | Some p => fs.writeFileSync p (JSON.stringify (TokenDocument c))
  | None => ret tt
  end.

(** ** Sample inputs *)

Definition sample_secret : ClientSecret :=
  {| client_id := "client-id"; client_secret := "client-secret";
     redirect_uris := ["http://localhost:3000/callback"] |}.

Definition sample_client : OAuth2Client :=
  new_OAuth2Client "client-id" "client-secret" (Some "http://localhost:3000/callback").

Definition token_set (rt : js string) (e : js Z) (tok : js string) : Credentials :=
  {| refresh_token := rt; expiry_date := e; access_token := tok |}.

(** A token endpoint that grants every request: a refresh yields [AT1] valid
    until 4600000, an exchange yields [tokens]. *)
Definition endpoint (tokens : Credentials) : Upstream :=
  {| getToken_response := fun _ _ => Ok tokens;
     refreshAccessToken_response :=
       fun _ _ => Ok (token_set undefined (val 4600000) (val "AT1")) |}.

(** A world whose client-secret file is [secret.json], whose other files are
    [files], and whose clock reads [t], [t + 1], ... *)
Definition sample_world (files : gmap string node) (t : Z) (tokens : Credentials) : World :=
  {| fs := <["secret.json" := File (Json (SecretDocument sample_secret))]> files;
     env := ∅;
     clock := fun n => t + Z.of_nat n;
     ticks := 0;
     upstream := endpoint tokens;
     requests := 0 |}.

Definition sample_manager (store : string_or_false) (token : option string)
  : GoogleOfflineAccess :=
  {| scopes := ["https://www.googleapis.com/auth/youtube"];
     clientSecretFile := "secret.json";
     authStateFile := store;
     defaultRefreshToken := token;
     log := console_log |}.

(** One file [auth.json] holding [c]. *)
Definition cache_of (c : Credentials) : gmap string node :=
  {[ "auth.json" := File (Json (TokenDocument c)) ]}.

(** ** Frame conditions *)

(** [m] takes every world to one related to it by [R] and makes only calls
    that satisfy [E]. *)
Definition respects (R : World -> World -> Prop) (E : event -> Prop)
    {A} (m : M A) : Prop :=
  forall w, R w (after (m w)) /\ Forall E (emitted (m w)).

(** The token endpoint is the same one. *)
Definition same_endpoint (w w' : World) : Prop :=
  upstream w' = upstream w.

(** The files are the same. *)
Definition same_files (w w' : World) : Prop :=
  fs w' = fs w.

(** Calls to [fs]. *)
Definition touches_fs (e : event) : bool :=
  match e with
  | existsSync_call _ | readFileSync_call _ | mkdirSync_call _
  | writeFileSync_call _ _ => true
  | _ => false
  end.

(** The only call to [fs] a manager without store may make: reading the
    client secret. *)
Definition secret_read_only (this : GoogleOfflineAccess) (e : event) : Prop :=
  touches_fs e = true -> e = readFileSync_call (clientSecretFile this).

(** [m] does not look at [process.env]: in a world that differs only there
    it returns the same, makes the same calls, and changes the rest of
    the world in the same way. *)
Definition env_blind {A} (m : M A) : Prop :=
  forall e w,
    m (set_env e w) =
    Outcome (returned (m w)) (set_env e (after (m w))) (emitted (m w)).

(** Options that leave everything but [scopes] to the environment. *)
Definition only_scopes : GoogleOfflineAccessOptions.t :=
  {| GoogleOfflineAccessOptions.scopes := ["https://www.googleapis.com/auth/youtube"];
     GoogleOfflineAccessOptions.clientSecretFile := None;
     GoogleOfflineAccessOptions.authStateFile := None;
     GoogleOfflineAccessOptions.defaultRefreshToken := None;
     GoogleOfflineAccessOptions.log := None |}.

(** Options that set every field. *)
Definition all_explicit : GoogleOfflineAccessOptions.t :=
  {| GoogleOfflineAccessOptions.scopes := ["https://www.googleapis.com/auth/youtube"];
     GoogleOfflineAccessOptions.clientSecretFile := Some "secret.json";
     GoogleOfflineAccessOptions.authStateFile := Some false_;
     GoogleOfflineAccessOptions.defaultRefreshToken := Some "RT1";
     GoogleOfflineAccessOptions.log := Some (custom "quiet") |}.

(** An environment that sets the three variables the constructor reads. *)
Definition full_env : gmap string string :=
  {[ "GOOGLE_CLIENT_SECRET_FILE" := "env-secret.json";
     "GOOGLE_AUTH_STATE_FILE" := "env-auth.json";
     "GOOGLE_REFRESH_TOKEN" := "RT-env" ]}.

Definition is_clock_read (e : event) : bool :=
  match e with Date_now_call => true | _ => false end.

(** ** [getAuthUrl] *)

(** The options [getAuthUrl] passes to [generateAuthUrl]. *)
Record GenerateAuthUrlOpts : Type := {
  access_type : string;
  scope : list string;
}.

Section AuthUrl.

(** [authClient.generateAuthUrl(opts)] of the OAuth2 library: a function of
    the client and the options, computed without any call to the outside. *)
Variable generateAuthUrl : OAuth2Client -> GenerateAuthUrlOpts -> string.

Definition getAuthUrl (this : GoogleOfflineAccess) : M string :=
  authClient <- createAuthClient this ;;
  let authUrl :=
    generateAuthUrl authClient {| access_type := "offline"; scope := scopes this |} in
  ret authUrl.

End AuthUrl.

(** ** More observations *)

Definition is_exchange (e : event) : bool :=
  match e with getToken_call _ => true | _ => false end.

Definition is_mkdir (e : event) : bool :=
  match e with mkdirSync_call _ => true | _ => false end.

(** Requests to the token endpoint. *)
Definition is_request (e : event) : bool :=
  match e with
  | getToken_call _ | refreshAccessToken_call _ => true
  | _ => false
  end.

(** The manager with another [authStateFile]. *)
Definition set_authStateFile (v : string_or_false) (this : GoogleOfflineAccess)
  : GoogleOfflineAccess :=
  {| scopes := scopes this; clientSecretFile := clientSecretFile this;
     authStateFile := v; defaultRefreshToken := defaultRefreshToken this;
     log := log this |}.

(** The manager with another [defaultRefreshToken]. *)
Definition set_defaultRefreshToken (v : option string) (this : GoogleOfflineAccess)
  : GoogleOfflineAccess :=
  {| scopes := scopes this; clientSecretFile := clientSecretFile this;
     authStateFile := authStateFile this; defaultRefreshToken := v;
     log := log this |}.

(** The calls [getAuthenticatedAuthClient] can make. *)
Definition refresh_repertoire (this : GoogleOfflineAccess) (e : event) : Prop :=
  match e with
  | readFileSync_call q =>
      q = clientSecretFile this \/ store_path this = Some q
  | existsSync_call q => store_path this = Some q
  | writeFileSync_call q _ => store_path this = Some q
  | Date_now_call | refreshAccessToken_call _ => True
  | log_call to _ => to = log this
  | mkdirSync_call _ | getToken_call _ => False
  end.

(** The calls [login] can make. *)
Definition login_repertoire (this : GoogleOfflineAccess) (code : string) (e : event)
  : Prop :=
  match e with
  | readFileSync_call q => q = clientSecretFile this
  | getToken_call c => c = code
  | mkdirSync_call d => exists p, store_path this = Some p /\ d = path.dirname p
  | writeFileSync_call q _ => store_path this = Some q
  | existsSync_call _ | Date_now_call | refreshAccessToken_call _
  | log_call _ _ => False
  end.

(** The three variables the constructor reads. *)
Definition configuration_variables : list string :=
  ["GOOGLE_CLIENT_SECRET_FILE"; "GOOGLE_AUTH_STATE_FILE"; "GOOGLE_REFRESH_TOKEN"].

(** A sample answer of the library's URL builder: the scopes, joined. *)
Definition sample_generateAuthUrl (c : OAuth2Client) (o : GenerateAuthUrlOpts) : string :=
  "https://accounts.google.com/o/oauth2/v2/auth?access_type=" +:+ access_type o
  +:+ "&client_id=" +:+ _clientId c
  +:+ "&scope=" +:+ String.concat " " (scope o).

(** The world with another token endpoint. *)
Definition set_upstream (u : Upstream) (w : World) : World :=
  {| fs := fs w; env := env w; clock := clock w; ticks := ticks w;
     upstream := u; requests := requests w |}.

(** A token endpoint that rejects every request. *)
Definition rejecting (message : string) : Upstream :=
  {| getToken_response := fun _ _ => Throw (Error message);
     refreshAccessToken_response := fun _ _ => Throw (Error message) |}.

(** The world with another clock. *)
Definition set_clock (c : nat -> Z) (w : World) : World :=
  {| fs := fs w; env := env w; clock := c; ticks := ticks w;
     upstream := upstream w; requests := requests w |}.

(** ** Basic facts about the monad and the primitives *)

Arguments fs.stat : simpl never.
Arguments fs.write : simpl never.
Arguments fs.mkdirp : simpl never.
Arguments path.dirname : simpl never.
Arguments minutes_left : simpl never.
Arguments count : simpl never.

Lemma createAuthClient_run this w :
  createAuthClient this w =
  Outcome (returned (createAuthClient this w)) w [readFileSync_call (clientSecretFile this)].
Proof.
  unfold createAuthClient, bind, fs.readFileSync; cbn.
  destruct (fs.stat (fs w) (clientSecretFile this)) as [[|[|d]]|]; cbn; try reflexivity.
  destruct (get_web d); reflexivity.
Qed.

Lemma createAuthClient_Ok this w client :
  returned (createAuthClient this w) = Ok client ->
  createAuthClient this w = Outcome (Ok client) w [readFileSync_call (clientSecretFile this)].
Proof. intros H. rewrite createAuthClient_run, H. reflexivity. Qed.

Lemma cachedCredentials_after this w : after (cachedCredentials this w) = w.
Proof.
  unfold cachedCredentials, bind, fs.existsSync, fs.readFileSync.
  destruct (to_boolean (authStateFile this)); [|reflexivity].
  destruct (authStateFile this) as [|file]; [reflexivity|]. cbn.
  destruct (fs.stat (fs w) file) as [[|[|d]]|] eqn:E; rewrite ?E; reflexivity.
Qed.

Lemma cachedCredentials_Ok this w creds :
  returned (cachedCredentials this w) = Ok creds ->
  cachedCredentials this w = Outcome (Ok creds) w (emitted (cachedCredentials this w)).
Proof.
  intros H. pose proof (cachedCredentials_after this w) as Ha.
  destruct (cachedCredentials this w) as [r w' evs]; cbn in *.
  subst. reflexivity.
Qed.

Lemma count_app f l1 l2 : count f (l1 ++ l2) = (count f l1 + count f l2)%nat.
Proof. unfold count. rewrite filter_app, length_app. reflexivity. Qed.

Lemma count_cons f e l :
  count f (e :: l) = ((if f e then 1 else 0) + count f l)%nat.
Proof.
  unfold count. rewrite filter_cons.
  destruct (f e); cbn; [|reflexivity].
  destruct (decide (true = true)); [reflexivity|congruence].
Qed.

Lemma count_nil f : count f [] = 0%nat.
Proof. reflexivity. Qed.

Lemma logged_app l1 l2 : logged (l1 ++ l2) = logged l1 ++ logged l2.
Proof. unfold logged. apply omap_app. Qed.

(** Reading the cache asks the file system at most two questions and makes
    no other call. *)
Lemma cachedCredentials_emitted this w :
  emitted (cachedCredentials this w) = [] \/
  exists p, store_path this = Some p /\
    (emitted (cachedCredentials this w) = [existsSync_call p] \/
     emitted (cachedCredentials this w) = [existsSync_call p; readFileSync_call p]).
Proof.
  unfold cachedCredentials, store_path, bind, fs.existsSync, fs.readFileSync.
  destruct (authStateFile this) as [|file]; cbn.
  - left. reflexivity.
  - destruct (to_boolean file); [|left; reflexivity].
    right. exists file. split; [reflexivity|]. cbn.
    destruct (fs.stat (fs w) file) as [[|[|d]]|] eqn:E; rewrite ?E; cbn; auto.
Qed.

Lemma preamble_counts this w :
  count is_refresh (preamble this w) = 0%nat /\
  count is_write (preamble this w) = 0%nat /\
  logged (preamble this w) = [].
Proof.
  unfold preamble.
  destruct (cachedCredentials_emitted this w) as [-> | (p & _ & [-> | ->])];
    repeat split; reflexivity.
Qed.

(** Unfold one run of [getAuthenticatedAuthClient] whose first two steps
    are known to succeed. *)
Ltac start_run Hclient Hcreds :=
  unfold getAuthenticatedAuthClient, bind;
  rewrite (createAuthClient_Ok _ _ _ Hclient); cbn;
  rewrite (cachedCredentials_Ok _ _ _ Hcreds); cbn.

Lemma usable_dec c t : {usable c t} + {~ usable c t}.
Proof.
  unfold usable. destruct (expiry_date c) as [| |e].
  - right. intros (e & H & _). discriminate.
  - right. intros (e & H & _). discriminate.
  - destruct (decide (e = 0)) as [->|Hne].
    + right. intros (e & H & Hne & _). congruence.
    + destruct (decide (t + 300000 <= e)) as [Hle|Hgt].
      * left. eauto.
      * right. intros (e' & H & _ & Hle). inversion H; subst. lia.
Qed.

(** The reuse branch, spelled out. *)
Lemma run_reuse this w client creds :
  returned (createAuthClient this w) = Ok client ->
  returned (cachedCredentials this w) = Ok creds ->
  usable creds (now w) ->
  getAuthenticatedAuthClient this w =
  Outcome (Ok (setCredentials client creds)) (tick (tick w))
    (preamble this w ++
     [Date_now_call; Date_now_call;
      log_call (log this)
        ("Token is still valid for "
         +:+ minutes_left (ToNumber (expiry_date creds)) (clock w (S (ticks w)))
         +:+ " minutes")]).
Proof.
  intros Hclient Hcreds (e & He & Hne & Hle). unfold now in Hle.
  start_run Hclient Hcreds. rewrite He. cbn.
  unfold to_boolean, number_to_boolean.
  destruct (Z.eqb_spec e 0) as [|_]; [contradiction|]. cbn.
  destruct (Z.gtb_spec (clock w (ticks w) + 300000) e) as [|_]; [lia|]. cbn.
  reflexivity.
Qed.

Ltac stale_cases creds :=
  let e := fresh "e" in
  let He := fresh "He" in
  let Hstale := fresh "Hstale" in
  intros Hstale;
  unfold test_calls, after_test, renewal_message;
  destruct (expiry_date creds) as [| |e] eqn:He; cbn;
  [ | | unfold to_boolean, number_to_boolean;
        destruct (Z.eqb_spec e 0) as [|?]; cbn;
        [ | match goal with
            | |- context [(?a >? e)] =>
                destruct (Z.gtb_spec a e) as [?|?]; cbn;
                [ | exfalso; apply Hstale; exists e; unfold now;
                    repeat split; auto; lia ]
            end ] ].

(** The refresh branch without a refresh token. *)
Lemma run_missing this w client creds :
  returned (createAuthClient this w) = Ok client ->
  returned (cachedCredentials this w) = Ok creds ->
  ~ usable creds (now w) ->
  to_boolean (refresh_token creds) = false ->
  getAuthenticatedAuthClient this w =
  Outcome (Throw (Error missing_refresh_token)) (after_test creds w)
    (preamble this w ++ test_calls creds ++
     [log_call (log this) (renewal_message creds)]).
Proof.
  intros Hclient Hcreds Hstale Hrt. revert Hstale.
  start_run Hclient Hcreds. rewrite Hrt.
  stale_cases creds; reflexivity.
Qed.

(** The refresh branch when the token endpoint rejects the refresh. *)
Lemma run_rejected this w client creds err :
  returned (createAuthClient this w) = Ok client ->
  returned (cachedCredentials this w) = Ok creds ->
  ~ usable creds (now w) ->
  to_boolean (refresh_token creds) = true ->
  refresh_answer w creds = Throw err ->
  getAuthenticatedAuthClient this w =
  Outcome (Throw err) (count_request (after_test creds w))
    (preamble this w ++ test_calls creds ++
     [log_call (log this) (renewal_message creds);
      refreshAccessToken_call creds]).
Proof.
  intros Hclient Hcreds Hstale Hrt Hans. revert Hstale.
  unfold refresh_answer in Hans.
  start_run Hclient Hcreds. rewrite Hrt.
  stale_cases creds; unfold refreshAccessToken; cbn; rewrite Hans; reflexivity.
Qed.

(** The refresh branch when the token endpoint answers. *)
Lemma run_renewed this w client creds response :
  returned (createAuthClient this w) = Ok client ->
  returned (cachedCredentials this w) = Ok creds ->
  ~ usable creds (now w) ->
  to_boolean (refresh_token creds) = true ->
  refresh_answer w creds = Ok response ->
  let o := persist this (renewed creds response) (count_request (after_test creds w)) in
  getAuthenticatedAuthClient this w =
  Outcome
    match returned o with
    | Ok _ => Ok (setCredentials client (renewed creds response))
    | Throw err => Throw err
    end
    (after o)
    (preamble this w ++ test_calls creds ++
     [log_call (log this) (renewal_message creds);
      refreshAccessToken_call creds] ++ emitted o).
Proof.
  intros Hclient Hcreds Hstale Hrt Hans. revert Hstale.
  unfold refresh_answer in Hans.
  start_run Hclient Hcreds. rewrite Hrt.
  assert (Hpersist : forall w',
    (if to_boolean (authStateFile this)
     then match authStateFile this with
          | str file =>
              fs.writeFileSync file (JSON.stringify (TokenDocument (renewed creds response)))
          | false_ => ret tt
          end
     else ret tt) w' = persist this (renewed creds response) w').
  { intros w'. unfold persist, store_path.
    destruct (authStateFile this) as [|file]; cbn; [reflexivity|].
    destruct (to_boolean file); reflexivity. }
  stale_cases creds; unfold refreshAccessToken; cbn; rewrite Hans; cbn;
    fold (renewed creds response); rewrite Hpersist;
    destruct (persist this (renewed creds response) _) as [[[]|err] w' evs];
    cbn; rewrite ?app_nil_r; try reflexivity.
Qed.

Lemma persist_emitted this c w :
  emitted (persist this c w) =
  match store_path this with
  | Some p => [writeFileSync_call p (Json (TokenDocument c))]
  | None => []
  end.
Proof.
  unfold persist, fs.writeFileSync.
  destruct (store_path this) as [p|]; [|reflexivity].
  destruct (fs.write _ _ _); reflexivity.
Qed.

Lemma test_calls_counts c :
  count is_refresh (test_calls c) = 0%nat /\
  count is_write (test_calls c) = 0%nat /\
  logged (test_calls c) = [].
Proof. unfold test_calls. destruct (to_boolean _); repeat split; reflexivity. Qed.

(** Project the fields of an explicit outcome. *)
Ltac project :=
  repeat match goal with
         | |- context [emitted (Outcome ?r ?w ?l)] =>
             change (emitted (Outcome r w l)) with l
         | |- context [returned (Outcome ?r ?w ?l)] =>
             change (returned (Outcome r w l)) with r
         | |- context [after (Outcome ?r ?w ?l)] =>
             change (after (Outcome r w l)) with w
         end.

(** Count the calls of a run written as a concatenation. *)
Ltac count_calls this w c :=
  project;
  destruct (preamble_counts this w) as (? & ? & ?);
  destruct (test_calls_counts c) as (? & ? & ?);
  rewrite ?persist_emitted;
  try match goal with
      | |- context [store_path this] => destruct (store_path this)
      end;
  rewrite ?count_app, ?logged_app, ?count_cons, ?count_nil;
  repeat match goal with
         | H : count _ _ = _ |- _ => rewrite H
         | H : logged _ = _ |- _ => rewrite H
         end;
  cbn.

(** Whatever the branch, a refresh that is needed and possible is requested
    once. *)
Lemma one_refresh_when_stale this w client creds :
  returned (createAuthClient this w) = Ok client ->
  returned (cachedCredentials this w) = Ok creds ->
  ~ usable creds (now w) ->
  to_boolean (refresh_token creds) = true ->
  count is_refresh (emitted (getAuthenticatedAuthClient this w)) = 1%nat.
Proof.
  intros Hclient Hcreds Hstale Hrt.
  destruct (refresh_answer w creds) as [response|err] eqn:Hans.
  - rewrite (run_renewed _ _ _ _ _ Hclient Hcreds Hstale Hrt Hans).
    count_calls this w creds; reflexivity.
  - rewrite (run_rejected _ _ _ _ _ Hclient Hcreds Hstale Hrt Hans).
    count_calls this w creds; reflexivity.
Qed.

(** C1 (amended). For the credential set [creds] a call starts from, the
    cached access token is reused -- the client is returned with [creds]
    unchanged, without refresh and without store write -- exactly when
    [expiry_date] is a non-zero number and the clock plus 300000 ms is not
    after it ([<=]); otherwise, when a refresh token is available, exactly one
    refresh is requested. At [now + 300000 = expiry_date] the token is
    reused. *)
Theorem reuse_exactly_when_margin_not_passed this w client creds :
  returned (createAuthClient this w) = Ok client ->
  returned (cachedCredentials this w) = Ok creds ->
  let o := getAuthenticatedAuthClient this w in
  (returned o = Ok (setCredentials client creds) /\
   count is_refresh (emitted o) = 0%nat /\
   count is_write (emitted o) = 0%nat /\
   fs (after o) = fs w
   <-> usable creds (now w)) /\
  (~ usable creds (now w) ->
   to_boolean (refresh_token creds) = true ->
   count is_refresh (emitted o) = 1%nat).
Proof.
  intros Hclient Hcreds o. subst o. split.
  - split.
    + intros (Hret & Hrefresh & _).
      destruct (usable_dec creds (now w)) as [Hu|Hstale]; [exact Hu|exfalso].
      destruct (to_boolean (refresh_token creds)) eqn:Hrt.
      * rewrite (one_refresh_when_stale _ _ _ _ Hclient Hcreds Hstale Hrt) in Hrefresh.
        discriminate.
      * rewrite (run_missing _ _ _ _ Hclient Hcreds Hstale Hrt) in Hret.
        discriminate.
    + intros Hu. rewrite (run_reuse _ _ _ _ Hclient Hcreds Hu).
      count_calls this w creds; repeat split; reflexivity.
  - intros. eapply one_refresh_when_stale; eassumption.
Qed.

Lemma reuse_exactly_when_margin_not_passed_witness :
  let this := sample_manager (str "auth.json") None in
  let creds := token_set (val "RT1") (val 301000) (val "AT0") in
  let w := sample_world (cache_of creds) 1000 no_credentials in
  let o := getAuthenticatedAuthClient this w in
  returned (createAuthClient this w) = Ok sample_client /\
  returned (cachedCredentials this w) = Ok creds /\
  (returned o = Ok (setCredentials sample_client creds) /\
   count is_refresh (emitted o) = 0%nat /\
   count is_write (emitted o) = 0%nat /\
   fs (after o) = fs w
   <-> usable creds (now w)) /\
  (~ usable creds (now w) ->
   to_boolean (refresh_token creds) = true ->
   count is_refresh (emitted o) = 1%nat).
Proof.
  intros this creds w o.
  split; [reflexivity|]. split; [reflexivity|].
  apply (reuse_exactly_when_margin_not_passed this w sample_client creds);
    reflexivity.
Defined.

(** C1 as stated fails at the boundary: with [now + 300000 = expiry_date]
    the claim asks for exactly one refresh, and the code requests none. *)
Lemma refresh_at_exact_boundary_refuted :
  ~ (forall this w client creds,
       returned (createAuthClient this w) = Ok client ->
       returned (cachedCredentials this w) = Ok creds ->
       to_boolean (refresh_token creds) = true ->
       let o := getAuthenticatedAuthClient this w in
       (count is_refresh (emitted o) = 0%nat /\ count is_write (emitted o) = 0%nat
        <-> strictly_before_expiry creds (now w)) /\
       (~ strictly_before_expiry creds (now w) ->
        count is_refresh (emitted o) = 1%nat)).
Proof.
  intros claim.
  pose (creds := token_set (val "RT1") (val 301000) (val "AT0")).
  destruct (claim (sample_manager (str "auth.json") None)
                  (sample_world (cache_of creds) 1000 no_credentials)
                  sample_client creds eq_refl eq_refl eq_refl) as [_ Hone].
  assert (Hnot : ~ strictly_before_expiry creds
                     (now (sample_world (cache_of creds) 1000 no_credentials))).
  { intros (e & He & Hlt). inversion He; subst e. vm_compute in Hlt. discriminate. }
  specialize (Hone Hnot). vm_compute in Hone. discriminate.
Qed.

(** ** Where the starting credential set comes from *)

Lemma eta_credentials c :
  {| refresh_token := refresh_token c; expiry_date := expiry_date c;
     access_token := access_token c |} = c.
Proof. destruct c; reflexivity. Qed.

(** With a store file that parses, the set is the file's, whatever the
    default refresh token. *)
Lemma cachedCredentials_from_store this w p c :
  store_path this = Some p ->
  stored w p = Some c ->
  cachedCredentials this w =
  Outcome (Ok c) w [existsSync_call p; readFileSync_call p].
Proof.
  unfold store_path, stored, cachedCredentials, bind, fs.existsSync, fs.readFileSync.
  destruct (authStateFile this) as [|file]; [discriminate|]. cbn.
  destruct (to_boolean file); [|discriminate].
  intros [= ->]. cbn.
  destruct (fs.stat (fs w) p) as [[|[|d]]|] eqn:E; try discriminate.
  intros [= <-]. rewrite ?E. cbn. rewrite eta_credentials. reflexivity.
Qed.

(** Without a store file, the set is the seeded one. *)
Lemma cachedCredentials_no_file this w p :
  store_path this = Some p ->
  fs.stat (fs w) p = None ->
  cachedCredentials this w = Outcome (Ok (seeded this)) w [existsSync_call p].
Proof.
  unfold store_path, seeded, cachedCredentials, bind, fs.existsSync.
  destruct (authStateFile this) as [|file]; [discriminate|]. cbn.
  destruct (to_boolean file); [|discriminate].
  intros [= ->] E. cbn. rewrite E. reflexivity.
Qed.

(** With persistence off, the file system is not consulted. *)
Lemma cachedCredentials_disabled this w :
  store_path this = None ->
  cachedCredentials this w = Outcome (Ok (seeded this)) w [].
Proof.
  unfold store_path, seeded, cachedCredentials.
  destruct (authStateFile this) as [|file]; cbn; [reflexivity|].
  destruct (to_boolean file); [discriminate|reflexivity].
Qed.

Lemma cachedCredentials_cases this w creds :
  returned (cachedCredentials this w) = Ok creds ->
  (exists p, store_path this = Some p /\ stored w p = Some creds) \/
  creds = seeded this.
Proof.
  destruct (store_path this) as [p|] eqn:Hp.
  - destruct (stored w p) as [c|] eqn:Hc.
    + rewrite (cachedCredentials_from_store _ _ _ _ Hp Hc). intros [= <-]. eauto.
    + unfold stored in Hc.
      destruct (fs.stat (fs w) p) as [[|[|d]]|] eqn:E; try discriminate.
      * unfold store_path in Hp. unfold cachedCredentials, bind, fs.existsSync, fs.readFileSync.
        destruct (authStateFile this) as [|file]; [discriminate|]. cbn in *.
        destruct (to_boolean file); [|discriminate].
        injection Hp as ->. cbn. rewrite ?E. cbn. rewrite ?E. discriminate.
      * unfold store_path in Hp. unfold cachedCredentials, bind, fs.existsSync, fs.readFileSync.
        destruct (authStateFile this) as [|file]; [discriminate|]. cbn in *.
        destruct (to_boolean file); [|discriminate].
        injection Hp as ->. cbn. rewrite ?E. cbn. rewrite ?E. discriminate.
      * rewrite (cachedCredentials_no_file _ _ _ Hp E). intros [= <-]. auto.
  - rewrite (cachedCredentials_disabled _ _ Hp). intros [= <-]. auto.
Qed.

Lemma seeded_refresh_token this :
  to_boolean (defaultRefreshToken this) = false ->
  to_boolean (refresh_token (seeded this)) = false.
Proof. unfold seeded. intros ->. reflexivity. Qed.

(** ** Writing files *)

Lemma write_inv f p data f' :
  fs.write f p data = Ok f' ->
  f' = <[p := File data]> f /\ p <> "." /\ p <> "/".
Proof.
  unfold fs.write, fs.stat.
  destruct (decide (p = ".")) as [->|Hdot]; [discriminate|].
  destruct (decide (p = "/")) as [->|Hroot]; [discriminate|].
  intros H. split; [|split; assumption].
  destruct (f !! p) as [[|t]|]; try discriminate.
  - injection H as <-. reflexivity.
  - repeat destruct (decide _); try discriminate; try (injection H as <-; reflexivity);
      destruct (f !! path.dirname p) as [[|?]|]; try discriminate;
      injection H as <-; reflexivity.
Qed.

Lemma write_stat f p data f' :
  fs.write f p data = Ok f' -> fs.stat f' p = Some (File data).
Proof.
  intros H. destruct (write_inv _ _ _ _ H) as (-> & Hdot & Hroot).
  unfold fs.stat. rewrite !decide_False by assumption.
  apply lookup_insert_eq.
Qed.

Lemma write_stat_ne f p data f' q :
  fs.write f p data = Ok f' -> q <> p -> fs.stat f' q = fs.stat f q.
Proof.
  intros H Hne. destruct (write_inv _ _ _ _ H) as (-> & _ & _).
  unfold fs.stat. repeat destruct (decide _); try reflexivity.
  apply lookup_insert_ne. congruence.
Qed.

(** A file that is there can always be replaced. *)
Lemma write_existing f p old data :
  fs.stat f p = Some (File old) -> fs.write f p data = Ok (<[p := File data]> f).
Proof. unfold fs.write. intros ->. reflexivity. Qed.

Lemma persist_run this c w :
  persist this c w =
  match store_path this with
  | Some p =>
      match fs.write (fs w) p (Json (TokenDocument c)) with
      | Ok f => Outcome (Ok tt) (set_fs f w) [writeFileSync_call p (Json (TokenDocument c))]
      | Throw err => Outcome (Throw err) w [writeFileSync_call p (Json (TokenDocument c))]
      end
  | None => Outcome (Ok tt) w []
  end.
Proof. unfold persist. destruct (store_path this); reflexivity. Qed.

(** ** The missing-refresh-token error *)

(** C3. When a refresh is required and neither the configuration nor the
    store supplies a refresh token, the call throws the error whose message
    tells the operator to provide one through [GOOGLE_REFRESH_TOKEN]; no
    refresh is requested, no write is attempted and the files are as they
    were. *)
Theorem no_refresh_token_is_an_error this w client creds :
  returned (createAuthClient this w) = Ok client ->
  returned (cachedCredentials this w) = Ok creds ->
  ~ usable creds (now w) ->
  to_boolean (defaultRefreshToken this) = false ->
  (forall p c, store_path this = Some p -> stored w p = Some c ->
               to_boolean (refresh_token c) = false) ->
  let o := getAuthenticatedAuthClient this w in
  returned o =
    Throw (Error "No refresh token found. Please provide one via the GOOGLE_REFRESH_TOKEN environment variable.") /\
  count is_write (emitted o) = 0%nat /\
  count is_refresh (emitted o) = 0%nat /\
  fs (after o) = fs w.
Proof.
  intros Hclient Hcreds Hstale Hdefault Hstore o. subst o.
  assert (Hrt : to_boolean (refresh_token creds) = false).
  { destruct (cachedCredentials_cases _ _ _ Hcreds) as [(p & Hp & Hc) | ->].
    - eapply Hstore; eassumption.
    - apply seeded_refresh_token, Hdefault. }
  rewrite (run_missing _ _ _ _ Hclient Hcreds Hstale Hrt).
  count_calls this w creds.
  repeat split; try reflexivity.
  unfold after_test. destruct (to_boolean (expiry_date creds)); reflexivity.
Qed.

Lemma no_refresh_token_is_an_error_witness :
  let this := sample_manager (str "auth.json") None in
  let creds := token_set undefined (val 1000) (val "AT0") in
  let w := sample_world (cache_of creds) 5000 no_credentials in
  let o := getAuthenticatedAuthClient this w in
  ~ usable creds (now w) /\
  returned o = Throw (Error missing_refresh_token) /\
  count is_write (emitted o) = 0%nat /\
  count is_refresh (emitted o) = 0%nat /\
  fs (after o) = fs w.
Proof.
  intros this creds w o.
  assert (Hstale : ~ usable creds (now w)).
  { intros (e & He & _ & Hle). inversion He; subst e. vm_compute in Hle.
    apply Hle. reflexivity. }
  split; [exact Hstale|].
  apply (no_refresh_token_is_an_error this w sample_client creds);
    [reflexivity | reflexivity | exact Hstale | reflexivity |].
  intros p c [= <-] [= <-]. reflexivity.
Defined.

(** ** The default refresh token and the store *)

(** C2 (the code at the failing input). The manager is configured with the
    default refresh token [RT1]; the store file exists and holds an expired
    access token but no [refresh_token]. Line 119 overwrites the seeded
    [RT1] with [undefined], and the call ends in the missing-refresh-token
    error without requesting a refresh. *)
Theorem default_refresh_token_discarded_by_store_read :
  let this := sample_manager (str "auth.json") (Some "RT1") in
  let cache := token_set undefined (val 1000) (val "AT0") in
  let w := sample_world (cache_of cache) 5000 no_credentials in
  let o := getAuthenticatedAuthClient this w in
  refresh_token (seeded this) = val "RT1" /\
  returned (cachedCredentials this w) = Ok cache /\
  returned o = Throw (Error missing_refresh_token) /\
  count is_refresh (emitted o) = 0%nat.
Proof. vm_compute. repeat split; reflexivity. Qed.

(** ** What a successful refresh leaves behind *)

(** C4. After a successful refresh the manager hands one credential set to
    [writeFileSync] (when persistence is on) and to the returned client: the
    refresh token the call started from, with the access token and expiry
    date of the refresh response. When the call returns, the store holds
    that set. *)
Theorem refresh_keeps_refresh_token this w client creds response :
  returned (createAuthClient this w) = Ok client ->
  returned (cachedCredentials this w) = Ok creds ->
  ~ usable creds (now w) ->
  to_boolean (refresh_token creds) = true ->
  refresh_answer w creds = Ok response ->
  let o := getAuthenticatedAuthClient this w in
  exists merged,
    refresh_token merged = refresh_token creds /\
    access_token merged = access_token response /\
    expiry_date merged = expiry_date response /\
    filter (fun e => is_write e = true) (emitted o) =
      match store_path this with
      | Some p => [writeFileSync_call p (JSON.stringify (TokenDocument merged))]
      | None => []
      end /\
    (forall client', returned o = Ok client' ->
       client' = setCredentials client merged /\
       forall p, store_path this = Some p -> stored (after o) p = Some merged) /\
    (forall p f, store_path this = Some p ->
       fs.write (fs w) p (JSON.stringify (TokenDocument merged)) = Ok f ->
       returned o = Ok (setCredentials client merged)) /\
    (store_path this = None -> returned o = Ok (setCredentials client merged)).
Proof.
  intros Hclient Hcreds Hstale Hrt Hans o. subst o.
  exists (renewed creds response).
  rewrite (run_renewed _ _ _ _ _ Hclient Hcreds Hstale Hrt Hans).
  project. rewrite persist_run.
  assert (Hfs : fs (count_request (after_test creds w)) = fs w).
  { unfold after_test. destruct (to_boolean (expiry_date creds)); reflexivity. }
  rewrite Hfs.
  assert (Hquiet : filter (fun e => is_write e = true)
                     (preamble this w ++ test_calls creds) = []).
  { destruct (preamble_counts this w) as (_ & Hw & _).
    destruct (test_calls_counts creds) as (_ & Hw' & _).
    apply length_zero_iff_nil. rewrite filter_app, length_app.
    unfold count in Hw, Hw'. rewrite Hw, Hw'. reflexivity. }
  repeat split.
  - rewrite app_assoc, filter_app, Hquiet.
    destruct (store_path this) as [p|]; [|reflexivity].
    destruct (fs.write (fs w) p _); reflexivity.
  - destruct (store_path this) as [p|]; [|cbn in *; congruence].
    destruct (fs.write (fs w) p _); cbn in *; congruence.
  - intros p Hp. rewrite Hp in *.
    destruct (fs.write (fs w) p _) as [f|err] eqn:Hwrite; [|discriminate].
    cbn. unfold stored. cbn. rewrite (write_stat _ _ _ _ Hwrite). reflexivity.
  - intros p f Hp Hwrite. rewrite Hp. unfold JSON.stringify in Hwrite.
    rewrite Hwrite. reflexivity.
  - intros ->. reflexivity.
Qed.

Lemma refresh_keeps_refresh_token_witness :
  let this := sample_manager (str "auth.json") (Some "RT1") in
  let w := sample_world ∅ 1000000 no_credentials in
  let o := getAuthenticatedAuthClient this w in
  exists merged,
    refresh_token merged = val "RT1" /\
    access_token merged = val "AT1" /\
    expiry_date merged = val 4600000 /\
    returned o = Ok (setCredentials sample_client merged) /\
    stored (after o) "auth.json" = Some merged.
Proof.
  intros this w o.
  assert (Hstale : ~ usable (seeded this) (now w)).
  { intros (e & He & _). discriminate He. }
  destruct (refresh_keeps_refresh_token this w sample_client (seeded this)
              (token_set undefined (val 4600000) (val "AT1"))
              eq_refl eq_refl Hstale eq_refl eq_refl)
    as (merged & Hrt & Hat & Hexp & _ & Hret & Hwrite & _).
  exists merged. repeat split; try assumption.
  - eapply Hwrite; reflexivity.
  - apply (Hret (setCredentials sample_client merged)); [|reflexivity].
    eapply Hwrite; reflexivity.
Defined.

(** ** The stored refresh token over time *)

Lemma run_no_client this w err :
  returned (createAuthClient this w) = Throw err ->
  getAuthenticatedAuthClient this w =
  Outcome (Throw err) w [readFileSync_call (clientSecretFile this)].
Proof.
  intros H. unfold getAuthenticatedAuthClient, bind.
  rewrite createAuthClient_run, H. reflexivity.
Qed.

Lemma run_no_cache this w client err :
  returned (createAuthClient this w) = Ok client ->
  returned (cachedCredentials this w) = Throw err ->
  getAuthenticatedAuthClient this w = Outcome (Throw err) w (preamble this w).
Proof.
  intros Hclient H. unfold getAuthenticatedAuthClient, bind.
  rewrite (createAuthClient_Ok _ _ _ Hclient). cbn.
  pose proof (cachedCredentials_after this w) as Ha.
  destruct (cachedCredentials this w) as [r w' evs] eqn:E. cbn in *. subst.
  unfold preamble. rewrite E. reflexivity.
Qed.

Lemma after_test_fs c w : fs (after_test c w) = fs w.
Proof. unfold after_test. destruct (to_boolean _); reflexivity. Qed.

(** One call of [getAuthenticatedAuthClient] leaves a stored refresh token
    as it found it. *)
Lemma getAuthenticatedAuthClient_keeps_stored_refresh_token this w p c :
  store_path this = Some p ->
  stored w p = Some c ->
  exists c', stored (after (getAuthenticatedAuthClient this w)) p = Some c' /\
             refresh_token c' = refresh_token c.
Proof.
  intros Hp Hc.
  destruct (returned (createAuthClient this w)) as [client|err] eqn:Hclient.
  2: { rewrite (run_no_client _ _ _ Hclient). eauto. }
  assert (Hcreds : returned (cachedCredentials this w) = Ok c).
  { rewrite (cachedCredentials_from_store _ _ _ _ Hp Hc). reflexivity. }
  destruct (usable_dec c (now w)) as [Hu|Hstale].
  { rewrite (run_reuse _ _ _ _ Hclient Hcreds Hu). eauto. }
  destruct (to_boolean (refresh_token c)) eqn:Hrt.
  2: { rewrite (run_missing _ _ _ _ Hclient Hcreds Hstale Hrt). project.
       unfold stored in *. rewrite after_test_fs. eauto. }
  destruct (refresh_answer w c) as [response|err] eqn:Hans.
  2: { rewrite (run_rejected _ _ _ _ _ Hclient Hcreds Hstale Hrt Hans). project.
       unfold stored in *. cbn. rewrite after_test_fs. eauto. }
  rewrite (run_renewed _ _ _ _ _ Hclient Hcreds Hstale Hrt Hans). project.
  rewrite persist_run, Hp. cbn. rewrite after_test_fs.
  unfold stored in Hc.
  destruct (fs.stat (fs w) p) as [[|[|d]]|] eqn:E; try discriminate.
  rewrite (write_existing _ _ _ _ E). cbn.
  exists (renewed c response). split; [|reflexivity].
  unfold stored. cbn.
  erewrite write_stat by (eapply write_existing; exact E). reflexivity.
Qed.

Lemma session_cons this c cs w :
  after (session this (c :: cs) w) = after (session this cs (after (perform this c w))).
Proof.
  cbn. unfold bind.
  destruct c; cbn; destruct (returned (session this cs _)); reflexivity.
Qed.

Lemma perform_get_after this w :
  after (perform this call_getAuthenticatedAuthClient w) =
  after (getAuthenticatedAuthClient this w).
Proof.
  cbn. unfold bind. destruct (returned (getAuthenticatedAuthClient this w)); reflexivity.
Qed.

Lemma perform_login_after this code w :
  after (perform this (call_login code) w) = after (login this code w).
Proof. reflexivity. Qed.

(** ** [mkdir -p] *)

Lemma stat_insert_ne f d n q :
  q <> d -> fs.stat (<[d := n]> f) q = fs.stat f q.
Proof.
  intros Hne. unfold fs.stat. repeat destruct (decide _); try reflexivity.
  apply lookup_insert_ne. congruence.
Qed.

Lemma mkdir1_keeps target r d f' q n :
  fs.mkdir1 target r d = Ok f' ->
  (forall f, r = Ok f -> fs.stat f q = Some n) ->
  fs.stat f' q = Some n.
Proof.
  unfold fs.mkdir1. destruct r as [f|err]; [|discriminate].
  intros H Hq. specialize (Hq f eq_refl).
  destruct (fs.stat f d) as [[|t]|] eqn:E; try discriminate.
  - injection H as <-. exact Hq.
  - injection H as <-. rewrite stat_insert_ne; [exact Hq|].
    intros ->. congruence.
Qed.

Lemma mkdirs_keep target ds : forall r f' q n,
  foldl (fs.mkdir1 target) r ds = Ok f' ->
  (forall f, r = Ok f -> fs.stat f q = Some n) ->
  fs.stat f' q = Some n.
Proof.
  induction ds as [|d ds IH]; cbn; intros r f' q n H Hq.
  - apply Hq, H.
  - eapply IH; [exact H|].
    intros f Hf. eapply mkdir1_keeps; eassumption.
Qed.

(** What is there stays there. *)
Lemma mkdirp_keeps f d f' q n :
  fs.mkdirp f d = Ok f' -> fs.stat f q = Some n -> fs.stat f' q = Some n.
Proof.
  unfold fs.mkdirp. intros H Hq. eapply mkdirs_keep; [exact H|].
  intros ? [= <-]. exact Hq.
Qed.

(** The directory asked for is there afterwards. *)
Lemma mkdirp_creates f d f' :
  fs.mkdirp f d = Ok f' -> fs.stat f' d = Some Directory.
Proof.
  unfold fs.mkdirp. rewrite foldl_app. cbn.
  destruct (foldl (fs.mkdir1 d) (Ok f) (path.parents d)) as [g|err]; cbn; [|discriminate].
  destruct (fs.stat g d) as [[|t]|] eqn:E; try discriminate.
  - intros [= <-]. exact E.
  - intros [= <-]. unfold fs.stat in *.
    repeat destruct (decide _); try reflexivity. apply lookup_insert_eq.
Qed.

(** After [mkdir -p] of its parent, a write does not fail for want of
    the parent directory. *)
Lemma write_after_mkdirp f p f1 data :
  fs.mkdirp f (path.dirname p) = Ok f1 ->
  fs.write f1 p data <> Throw (SystemError ENOENT p).
Proof.
  intros H. unfold fs.write. rewrite (mkdirp_creates _ _ _ H).
  destruct (fs.stat f1 p) as [[|t]|]; discriminate.
Qed.

(** ** [login], spelled out *)

Lemma login_run this code w client :
  returned (createAuthClient this w) = Ok client ->
  login this code w =
  let w1 := count_request w in
  let asked := [readFileSync_call (clientSecretFile this); getToken_call code] in
  match getToken_response (upstream w) (requests w) code with
  | Throw err => Outcome (Throw err) w1 asked
  | Ok tokens =>
      match store_path this with
      | None => Outcome (Ok tt) w1 asked
      | Some p =>
          let data := Json (TokenDocument tokens) in
          match fs.mkdirp (fs w) (path.dirname p) with
          | Throw err =>
              Outcome (Throw err) w1 (asked ++ [mkdirSync_call (path.dirname p)])
          | Ok f1 =>
              let made := asked ++ [mkdirSync_call (path.dirname p);
                                    writeFileSync_call p data] in
              match fs.write f1 p data with
              | Throw err => Outcome (Throw err) (set_fs f1 w1) made
              | Ok f2 => Outcome (Ok tt) (set_fs f2 w1) made
              end
          end
      end
  end.
Proof.
  intros Hclient. unfold login, bind.
  rewrite (createAuthClient_Ok _ _ _ Hclient). cbn.
  destruct (getToken_response (upstream w) (requests w) code) as [tokens|err];
    [|reflexivity].
  unfold store_path. destruct (authStateFile this) as [|file]; cbn; [reflexivity|].
  destruct (to_boolean file); [|reflexivity].
  unfold fs.mkdirSync_recursive, fs.writeFileSync. cbn.
  destruct (fs.mkdirp (fs w) (path.dirname file)) as [f1|err]; cbn; [|reflexivity].
  destruct (fs.write f1 file _) as [f2|err]; reflexivity.
Qed.

Lemma login_no_client this code w err :
  returned (createAuthClient this w) = Throw err ->
  login this code w = Outcome (Throw err) w [readFileSync_call (clientSecretFile this)].
Proof.
  intros H. unfold login, bind. rewrite createAuthClient_run, H. reflexivity.
Qed.

(** ** Frame rules *)

Section Frame.

Variable R : World -> World -> Prop.
Variable E : event -> Prop.
Hypothesis R_refl : forall w, R w w.
Hypothesis R_trans : forall a b c, R a b -> R b c -> R a c.

Lemma respects_ret {A} (a : A) : respects R E (ret a).
Proof using R_refl R_trans. intros w. split; [apply R_refl | constructor]. Qed.

Lemma respects_throw {A} err : respects R E (@throw A err).
Proof using R_refl R_trans. intros w. split; [apply R_refl | constructor]. Qed.

Lemma respects_bind {A B} (m : M A) (k : A -> M B) :
  respects R E m -> (forall a, respects R E (k a)) -> respects R E (bind m k).
Proof using R_refl R_trans.
  intros Hm Hk w. unfold bind. destruct (Hm w) as [HR HE].
  destruct (returned (m w)) as [a|err]; cbn.
  - destruct (Hk a (after (m w))) as [HR' HE']. split.
    + eapply R_trans; eassumption.
    + apply Forall_app. split; assumption.
  - split; assumption.
Qed.

Lemma respects_attempt {A} (m : M A) :
  respects R E m -> respects R E (attempt m).
Proof using R_refl R_trans. intros Hm w. exact (Hm w). Qed.

(** A step that leaves the world alone. *)
Lemma respects_query {A} (m : M A) :
  (forall w, after (m w) = w) ->
  (forall w, Forall E (emitted (m w))) ->
  respects R E m.
Proof using R_refl R_trans. intros Hw HE w. split; [rewrite Hw; apply R_refl | apply HE]. Qed.

Lemma respects_session this :
  (forall c, respects R E (perform this c)) ->
  forall cs, respects R E (session this cs).
Proof using R_refl R_trans.
  intros Hc cs. induction cs as [|c cs IH]; cbn.
  - apply respects_ret.
  - apply respects_bind; [apply Hc|]. intros r.
    apply respects_bind; [apply IH|]. intros rs. apply respects_ret.
Qed.

End Frame.

(** Break a method into its steps. *)
Ltac steps :=
  repeat match goal with
         | |- respects _ _ (bind _ _) =>
             apply respects_bind; [assumption | assumption | | intros ?]
         | |- respects _ _ (ret _) => apply respects_ret; assumption
         | |- respects _ _ (throw _) => apply respects_throw; assumption
         | |- respects _ _ (attempt _) =>
             apply respects_attempt; [assumption | assumption | ]
         | |- respects _ _ (if ?b then _ else _) => destruct b
         | |- respects _ _ (match ?x with _ => _ end) => destruct x
         end.

Lemma same_endpoint_refl w : same_endpoint w w.
Proof. reflexivity. Qed.

Lemma same_endpoint_trans a b c :
  same_endpoint a b -> same_endpoint b c -> same_endpoint a c.
Proof. unfold same_endpoint. congruence. Qed.

(** Expose the body of a primitive step. *)
Ltac open_step :=
  cbv beta delta
    [fs.existsSync fs.readFileSync fs.writeFileSync fs.mkdirSync_recursive
     Date.now getToken refreshAccessToken log_ emit JSON.parse ret throw];
  cbn;
  repeat match goal with
         | |- context [match ?x with _ => _ end] => destruct x; cbn
         end.

(** No step of the manager replaces the token endpoint. *)
Ltac endpoint_step :=
  let w := fresh "w" in
  intros w; split; [|apply Forall_forall; intros; exact I];
  unfold same_endpoint; open_step; reflexivity.

Lemma createAuthClient_endpoint this :
  respects same_endpoint (fun _ => True) (createAuthClient this).
Proof.
  intros w. rewrite createAuthClient_run. split; [reflexivity|].
  apply Forall_forall. intros; exact I.
Qed.

Lemma cachedCredentials_endpoint this :
  respects same_endpoint (fun _ => True) (cachedCredentials this).
Proof.
  intros w. split; [|apply Forall_forall; intros; exact I].
  rewrite cachedCredentials_after. reflexivity.
Qed.

Lemma getAuthenticatedAuthClient_endpoint this :
  respects same_endpoint (fun _ => True) (getAuthenticatedAuthClient this).
Proof.
  pose proof same_endpoint_refl. pose proof same_endpoint_trans.
  unfold getAuthenticatedAuthClient.
  apply respects_bind; [assumption|assumption|apply createAuthClient_endpoint|intros client].
  apply respects_bind; [assumption|assumption|apply cachedCredentials_endpoint|intros creds].
  steps; try endpoint_step.
Qed.

Lemma login_endpoint this code :
  respects same_endpoint (fun _ => True) (login this code).
Proof.
  pose proof same_endpoint_refl. pose proof same_endpoint_trans.
  unfold login.
  apply respects_bind; [assumption|assumption|apply createAuthClient_endpoint|intros client].
  steps; try endpoint_step.
Qed.


Lemma perform_endpoint this c :
  respects same_endpoint (fun _ => True) (perform this c).
Proof.
  pose proof same_endpoint_refl. pose proof same_endpoint_trans.
  destruct c as [code|]; unfold perform.
  - apply respects_attempt; [assumption | assumption | apply login_endpoint].
  - apply respects_attempt; [assumption | assumption | ].
    apply respects_bind;
      [assumption | assumption | apply getAuthenticatedAuthClient_endpoint | ].
    intros client. apply respects_ret; assumption.
Qed.

(** What [login] does to a store that is already there: it replaces the
    document by the token set of the exchange, or fails and leaves it. *)
Lemma login_stored this code w p c :
  store_path this = Some p ->
  stored w p = Some c ->
  (returned (login this code w) = Ok tt /\
   exists tokens,
     getToken_response (upstream w) (requests w) code = Ok tokens /\
     stored (after (login this code w)) p = Some tokens) \/
  ((exists err, returned (login this code w) = Throw err) /\
   stored (after (login this code w)) p = Some c).
Proof.
  intros Hp Hc.
  destruct (returned (createAuthClient this w)) as [client|err] eqn:Hclient.
  2: { rewrite (login_no_client _ _ _ _ Hclient). right. eauto. }
  rewrite (login_run _ _ _ _ Hclient), Hp. cbn zeta.
  destruct (getToken_response (upstream w) (requests w) code) as [tokens|err].
  2: { right. eauto. }
  destruct (fs.mkdirp (fs w) (path.dirname p)) as [f1|err] eqn:Hmk.
  2: { right. eauto. }
  assert (exists old, fs.stat f1 p = Some (File old)) as [old Hold].
  { unfold stored in Hc.
    destruct (fs.stat (fs w) p) as [[|t]|] eqn:E; try discriminate.
    exists t. eapply mkdirp_keeps; eassumption. }
  rewrite (write_existing _ _ _ _ Hold). left. split; [reflexivity|].
  exists tokens. split; [reflexivity|].
  unfold stored. cbn.
  erewrite write_stat by (eapply write_existing; exact Hold). reflexivity.
Qed.

(** A login that returns has written the token set of its exchange. *)
Lemma login_replaces this code w p :
  store_path this = Some p ->
  returned (login this code w) = Ok tt ->
  exists tokens,
    getToken_response (upstream w) (requests w) code = Ok tokens /\
    stored (after (login this code w)) p = Some tokens.
Proof.
  intros Hp.
  destruct (returned (createAuthClient this w)) as [client|err] eqn:Hclient.
  2: { rewrite (login_no_client _ _ _ _ Hclient). discriminate. }
  rewrite (login_run _ _ _ _ Hclient), Hp. cbn zeta.
  destruct (getToken_response (upstream w) (requests w) code) as [tokens|err];
    [|discriminate].
  destruct (fs.mkdirp (fs w) (path.dirname p)) as [f1|err]; [|discriminate].
  destruct (fs.write f1 p _) as [f2|err] eqn:Hwrite; [|discriminate].
  intros _. exists tokens. split; [reflexivity|].
  unfold stored. cbn. rewrite (write_stat _ _ _ _ Hwrite). reflexivity.
Qed.

(** The refresh token in the store after any sequence of calls is the one
    that was there or one granted to a login of the sequence. *)
Lemma session_stored this p : forall cs w c,
  store_path this = Some p ->
  stored w p = Some c ->
  exists c', stored (after (session this cs w)) p = Some c' /\
    (refresh_token c' = refresh_token c \/
     exists n code tokens,
       In (call_login code) cs /\
       getToken_response (upstream w) n code = Ok tokens /\
       refresh_token c' = refresh_token tokens).
Proof.
  induction cs as [|call cs IH]; intros w c Hp Hc.
  - exists c. split; [exact Hc | left; reflexivity].
  - rewrite session_cons.
    destruct (perform_endpoint this call w) as [Hup _]. unfold same_endpoint in Hup.
    destruct call as [code|].
    + rewrite perform_login_after in *.
      destruct (login_stored this code w p c Hp Hc)
        as [(_ & tokens & Htok & Hst) | (_ & Hst)].
      * destruct (IH _ _ Hp Hst) as (c' & Hc' & [Heq | (n & code' & t & Hin & Ht & Heq)]).
        -- exists c'. split; [exact Hc'|]. right.
           exists (requests w), code, tokens. repeat split; [left; reflexivity | exact Htok | exact Heq].
        -- exists c'. split; [exact Hc'|]. right.
           exists n, code', t. rewrite <- Hup. repeat split; [right; exact Hin | exact Ht | exact Heq].
      * destruct (IH _ _ Hp Hst) as (c' & Hc' & [Heq | (n & code' & t & Hin & Ht & Heq)]).
        -- exists c'. split; [exact Hc' | left; exact Heq].
        -- exists c'. split; [exact Hc'|]. right.
           exists n, code', t. rewrite <- Hup. repeat split; [right; exact Hin | exact Ht | exact Heq].
    + rewrite perform_get_after in *.
      destruct (getAuthenticatedAuthClient_keeps_stored_refresh_token this w p c Hp Hc)
        as (c1 & Hst & Hrt).
      destruct (IH _ _ Hp Hst) as (c' & Hc' & [Heq | (n & code' & t & Hin & Ht & Heq)]).
      * exists c'. split; [exact Hc' | left; congruence].
      * exists c'. split; [exact Hc'|]. right.
        exists n, code', t. rewrite <- Hup. repeat split; [right; exact Hin | exact Ht | exact Heq].
Qed.

(** C5 (amended). With a token set in the store: after any sequence of
    [login] and [getAuthenticatedAuthClient] calls the store still holds a
    token set, and its [refresh_token] is the one that was there or the
    [refresh_token] field of the token set an exchange returned to a login of
    the sequence; sequences without login leave it as it was. A login that
    returns has replaced the stored document by the exchange's token set, so
    one whose exchange grants no refresh token leaves the store without. *)
Theorem stored_refresh_token_changes_only_by_login this w p c :
  store_path this = Some p ->
  stored w p = Some c ->
  (forall cs,
     exists c', stored (after (session this cs w)) p = Some c' /\
       (refresh_token c' = refresh_token c \/
        exists n code tokens,
          In (call_login code) cs /\
          getToken_response (upstream w) n code = Ok tokens /\
          refresh_token c' = refresh_token tokens)) /\
  (forall cs,
     Forall (fun x => x = call_getAuthenticatedAuthClient) cs ->
     exists c', stored (after (session this cs w)) p = Some c' /\
                refresh_token c' = refresh_token c) /\
  (forall code,
     returned (login this code w) = Ok tt ->
     exists tokens,
       getToken_response (upstream w) (requests w) code = Ok tokens /\
       stored (after (login this code w)) p = Some tokens).
Proof.
  intros Hp Hc. split; [|split].
  - intros cs. apply session_stored; assumption.
  - intros cs Hcs.
    destruct (session_stored this p cs w c Hp Hc)
      as (c' & Hc' & [Heq | (n & code & t & Hin & _)]).
    + eauto.
    + rewrite Forall_forall in Hcs. apply list_elem_of_In, Hcs in Hin. discriminate.
  - intros code. apply login_replaces. exact Hp.
Qed.

Lemma stored_refresh_token_changes_only_by_login_witness :
  let this := sample_manager (str "auth.json") None in
  let c := token_set (val "RT1") (val 1000) (val "AT0") in
  let w := sample_world (cache_of c) 5000 (token_set undefined (val 9000000) (val "AT9")) in
  (exists c',
     stored (after (session this [call_getAuthenticatedAuthClient;
                                  call_getAuthenticatedAuthClient] w)) "auth.json"
       = Some c' /\
     refresh_token c' = val "RT1") /\
  (exists tokens,
     stored (after (login this "code" w)) "auth.json" = Some tokens /\
     refresh_token tokens = undefined).
Proof.
  intros this c w.
  destruct (stored_refresh_token_changes_only_by_login this w "auth.json" c
              eq_refl eq_refl) as (_ & Hget & Hlogin).
  split.
  - apply Hget. repeat constructor.
  - destruct (Hlogin "code" eq_refl) as (tokens & Htok & Hst).
    exists tokens. split; [exact Hst|].
    injection Htok as <-. reflexivity.
Defined.

(** C5 as stated fails: a login whose exchange grants no refresh token
    overwrites a store that held one. *)
Lemma login_without_grant_loses_stored_refresh_token :
  ~ (forall this w p c cs,
       store_path this = Some p ->
       stored w p = Some c ->
       to_boolean (refresh_token c) = true ->
       exists c', stored (after (session this cs w)) p = Some c' /\
                  to_boolean (refresh_token c') = true).
Proof.
  intros claim.
  destruct (claim (sample_manager (str "auth.json") None)
                  (sample_world (cache_of (token_set (val "RT1") (val 1000) (val "AT0")))
                                5000 (token_set undefined (val 9000000) (val "AT9")))
                  "auth.json"
                  (token_set (val "RT1") (val 1000) (val "AT0"))
                  [call_login "code"] eq_refl eq_refl eq_refl)
    as (c' & Hst & Hrt).
  vm_compute in Hst. injection Hst as <-. discriminate Hrt.
Qed.

(** ** Persistence switched off *)

Lemma same_files_refl w : same_files w w.
Proof. reflexivity. Qed.

Lemma same_files_trans a b c : same_files a b -> same_files b c -> same_files a c.
Proof. unfold same_files. congruence. Qed.

(** A step that keeps the files and does not call [fs]. *)
Ltac off_step :=
  let w := fresh "w" in
  intros w; split;
  [ unfold same_files; open_step; reflexivity
  | open_step; repeat constructor; intros Hfs; discriminate Hfs ].

Lemma createAuthClient_off this :
  respects same_files (secret_read_only this) (createAuthClient this).
Proof.
  intros w. rewrite createAuthClient_run. split; [reflexivity|].
  constructor; [intros _; reflexivity | constructor].
Qed.

Lemma getAuthenticatedAuthClient_off this :
  authStateFile this = false_ ->
  respects same_files (secret_read_only this) (getAuthenticatedAuthClient this).
Proof.
  intros Hoff.
  pose proof same_files_refl. pose proof same_files_trans.
  unfold getAuthenticatedAuthClient, cachedCredentials. rewrite Hoff. cbn.
  apply respects_bind; [assumption|assumption|apply createAuthClient_off|intros client].
  steps; try off_step.
Qed.

Lemma login_off this code :
  authStateFile this = false_ ->
  respects same_files (secret_read_only this) (login this code).
Proof.
  intros Hoff.
  pose proof same_files_refl. pose proof same_files_trans.
  unfold login. rewrite Hoff. cbn.
  apply respects_bind; [assumption|assumption|apply createAuthClient_off|intros client].
  steps; try off_step.
Qed.

Lemma perform_off this c :
  authStateFile this = false_ ->
  respects same_files (secret_read_only this) (perform this c).
Proof.
  intros Hoff.
  pose proof same_files_refl. pose proof same_files_trans.
  destruct c as [code|]; unfold perform.
  - apply respects_attempt; [assumption | assumption | apply login_off, Hoff].
  - apply respects_attempt; [assumption | assumption | ].
    apply respects_bind;
      [assumption | assumption | apply getAuthenticatedAuthClient_off, Hoff | ].
    intros client. apply respects_ret; assumption.
Qed.

Lemma seeded_not_usable this t : ~ usable (seeded this) t.
Proof.
  unfold seeded. intros (e & He & _).
  destruct (to_boolean (defaultRefreshToken this)); discriminate He.
Qed.

Lemma seeded_truthy this :
  to_boolean (refresh_token (seeded this)) = true ->
  exists token, defaultRefreshToken this = Some token /\ token <> "" /\
                refresh_token (seeded this) = val token.
Proof.
  unfold seeded.
  destruct (defaultRefreshToken this) as [token|] eqn:Hd; cbn; [|discriminate].
  destruct token as [|a s]; cbn; [discriminate|].
  intros _. exists (String a s). repeat split. discriminate.
Qed.

(** C6. With [authStateFile] set to [false], over any sequence of [login]
    and [getAuthenticatedAuthClient] calls the files are left as they were
    and the only call to [fs] is the read of the client-secret file; and a
    call of [getAuthenticatedAuthClient], which then always needs a refresh,
    returns only if a non-empty default refresh token is configured, which is
    the one it refreshed with. *)
Theorem disabled_store_is_never_touched this :
  authStateFile this = false_ ->
  (forall cs w,
     fs (after (session this cs w)) = fs w /\
     Forall (secret_read_only this) (emitted (session this cs w))) /\
  (forall w client,
     returned (getAuthenticatedAuthClient this w) = Ok client ->
     count is_refresh (emitted (getAuthenticatedAuthClient this w)) = 1%nat /\
     exists token,
       defaultRefreshToken this = Some token /\ token <> "" /\
       refresh_token (credentials client) = val token).
Proof.
  intros Hoff. split.
  - intros cs w.
    apply (respects_session same_files (secret_read_only this)
             same_files_refl same_files_trans this).
    intros c. apply perform_off, Hoff.
  - intros w client Hret.
    assert (Hp : store_path this = None).
    { unfold store_path. rewrite Hoff. reflexivity. }
    destruct (returned (createAuthClient this w)) as [client0|err] eqn:Hclient.
    2: { rewrite (run_no_client _ _ _ Hclient) in Hret. discriminate. }
    assert (Hcreds : returned (cachedCredentials this w) = Ok (seeded this)).
    { rewrite (cachedCredentials_disabled _ _ Hp). reflexivity. }
    pose proof (seeded_not_usable this (now w)) as Hstale.
    destruct (to_boolean (refresh_token (seeded this))) eqn:Hrt.
    2: { rewrite (run_missing _ _ _ _ Hclient Hcreds Hstale Hrt) in Hret.
         discriminate. }
    split.
    + eapply one_refresh_when_stale; eassumption.
    + destruct (seeded_truthy _ Hrt) as (token & Hd & Hne & Hseed).
      exists token. repeat split; try assumption.
      destruct (refresh_answer w (seeded this)) as [response|err] eqn:Hans.
      * rewrite (run_renewed _ _ _ _ _ Hclient Hcreds Hstale Hrt Hans) in Hret.
        revert Hret. project. rewrite persist_run, Hp. cbn.
        intros [= <-]. cbn. exact Hseed.
      * rewrite (run_rejected _ _ _ _ _ Hclient Hcreds Hstale Hrt Hans) in Hret.
        discriminate.
Qed.

Lemma disabled_store_is_never_touched_witness :
  let this := sample_manager false_ (Some "RT1") in
  let w := sample_world (cache_of (token_set (val "RT0") (val 9000000) (val "AT0")))
                        1000 no_credentials in
  let cs := [call_getAuthenticatedAuthClient; call_login "code";
             call_getAuthenticatedAuthClient] in
  fs (after (session this cs w)) = fs w /\
  Forall (secret_read_only this) (emitted (session this cs w)) /\
  count is_refresh (emitted (getAuthenticatedAuthClient this w)) = 1%nat.
Proof.
  intros this w cs.
  destruct (disabled_store_is_never_touched this eq_refl) as [Hframe Hneeds].
  destruct (Hframe cs w) as [Hfs Hcalls].
  split; [exact Hfs|]. split; [exact Hcalls|].
  destruct (Hneeds w (setCredentials sample_client
                        (token_set (val "RT1") (val 4600000) (val "AT1"))) eq_refl)
    as [Hone _].
  exact Hone.
Defined.

(** ** Parent directories *)

(** C7 (the code at the failing input). The store is [cache/auth.json]
    and the directory [cache] does not exist. [getAuthenticatedAuthClient]
    requests the refresh and then fails in [writeFileSync] with [ENOENT]: it
    never calls [mkdirSync]. [login], from the same world, creates [cache]
    and writes the file. *)
Theorem refresh_write_fails_without_parent_directory :
  let this := sample_manager (str "cache/auth.json") (Some "RT1") in
  let tokens := token_set (val "RT2") (val 9000000) (val "AT9") in
  let w := sample_world ∅ 1000000 tokens in
  let o := getAuthenticatedAuthClient this w in
  fs.stat (fs w) "cache" = None /\
  returned o = Throw (SystemError ENOENT "cache/auth.json") /\
  count is_refresh (emitted o) = 1%nat /\
  Forall (fun e => e <> mkdirSync_call "cache") (emitted o) /\
  stored (after o) "cache/auth.json" = None /\
  returned (login this "code" w) = Ok tt /\
  fs.stat (fs (after (login this "code" w))) "cache" = Some Directory /\
  stored (after (login this "code" w)) "cache/auth.json" = Some tokens.
Proof.
  vm_compute. repeat split; try reflexivity.
  repeat constructor; discriminate.
Qed.

(** ** Configuration *)

Lemma env_blind_ret {A} (a : A) : env_blind (ret a).
Proof. intros e w. reflexivity. Qed.

Lemma env_blind_throw {A} err : env_blind (@throw A err).
Proof. intros e w. reflexivity. Qed.

Lemma env_blind_bind {A B} (m : M A) (k : A -> M B) :
  env_blind m -> (forall a, env_blind (k a)) -> env_blind (bind m k).
Proof.
  intros Hm Hk e w. unfold bind. cbv zeta. rewrite !Hm. cbn.
  destruct (returned (m w)) as [a|err]; cbn; rewrite ?Hk; reflexivity.
Qed.

Lemma env_blind_attempt {A} (m : M A) : env_blind m -> env_blind (attempt m).
Proof. intros Hm e w. unfold attempt. cbv zeta. rewrite !Hm. reflexivity. Qed.

(** A primitive that does not read the environment. *)
Ltac blind_step :=
  let e := fresh "e" in
  let w := fresh "w" in
  intros e w; open_step; reflexivity.

Ltac blind_steps :=
  repeat match goal with
         | |- env_blind (bind _ _) => apply env_blind_bind; [|intros ?]
         | |- env_blind (ret _) => apply env_blind_ret
         | |- env_blind (throw _) => apply env_blind_throw
         | |- env_blind (attempt _) => apply env_blind_attempt
         | |- env_blind (if ?b then _ else _) => destruct b
         | |- env_blind (match ?x with _ => _ end) => destruct x
         end.

Lemma createAuthClient_env_blind this : env_blind (createAuthClient this).
Proof. unfold createAuthClient. blind_steps; blind_step. Qed.

Lemma cachedCredentials_env_blind this : env_blind (cachedCredentials this).
Proof. unfold cachedCredentials. blind_steps; blind_step. Qed.

Lemma getAuthenticatedAuthClient_env_blind this :
  env_blind (getAuthenticatedAuthClient this).
Proof.
  unfold getAuthenticatedAuthClient.
  apply env_blind_bind; [apply createAuthClient_env_blind|intros client].
  apply env_blind_bind; [apply cachedCredentials_env_blind|intros creds].
  blind_steps; blind_step.
Qed.

Lemma login_env_blind this code : env_blind (login this code).
Proof.
  unfold login.
  apply env_blind_bind; [apply createAuthClient_env_blind|intros client].
  blind_steps; blind_step.
Qed.

Lemma session_env_blind this cs : env_blind (session this cs).
Proof.
  induction cs as [|c cs IH]; cbn.
  - apply env_blind_ret.
  - apply env_blind_bind.
    + destruct c as [code|]; cbn.
      * apply env_blind_attempt, login_env_blind.
      * apply env_blind_attempt, env_blind_bind;
          [apply getAuthenticatedAuthClient_env_blind | intros; apply env_blind_ret].
    + intros r. apply env_blind_bind; [apply IH|]. intros rs. apply env_blind_ret.
Qed.

(** C8. The constructor resolves each field once, from the world it is run
    in: an explicitly supplied value is taken whatever the environment holds;
    otherwise the environment variable, if set; otherwise the built-in
    default ([log] has no variable, [defaultRefreshToken] no default). The
    calls made later on the constructed manager do not depend on the
    environment they are made in. *)
Theorem configuration_is_resolved_at_construction options w :
  exists this,
    constructor options w = Outcome (Ok this) w [] /\
    (forall v, GoogleOfflineAccessOptions.clientSecretFile options = Some v ->
               clientSecretFile this = v) /\
    (forall v, GoogleOfflineAccessOptions.authStateFile options = Some v ->
               authStateFile this = v) /\
    (forall v, GoogleOfflineAccessOptions.defaultRefreshToken options = Some v ->
               defaultRefreshToken this = Some v) /\
    (forall v, GoogleOfflineAccessOptions.log options = Some v -> log this = v) /\
    (GoogleOfflineAccessOptions.clientSecretFile options = None ->
     forall v, env w !! "GOOGLE_CLIENT_SECRET_FILE" = Some v ->
               clientSecretFile this = v) /\
    (GoogleOfflineAccessOptions.authStateFile options = None ->
     forall v, env w !! "GOOGLE_AUTH_STATE_FILE" = Some v ->
               authStateFile this = str v) /\
    (GoogleOfflineAccessOptions.defaultRefreshToken options = None ->
     defaultRefreshToken this = env w !! "GOOGLE_REFRESH_TOKEN") /\
    (GoogleOfflineAccessOptions.clientSecretFile options = None ->
     env w !! "GOOGLE_CLIENT_SECRET_FILE" = None ->
     clientSecretFile this = ".data/google_client_secret.json") /\
    (GoogleOfflineAccessOptions.authStateFile options = None ->
     env w !! "GOOGLE_AUTH_STATE_FILE" = None ->
     authStateFile this = str ".data/google_auth.json") /\
    (GoogleOfflineAccessOptions.log options = None -> log this = console_log) /\
    scopes this = GoogleOfflineAccessOptions.scopes options /\
    (forall cs e w',
       session this cs (set_env e w') =
       Outcome (returned (session this cs w'))
               (set_env e (after (session this cs w')))
               (emitted (session this cs w'))).
Proof.
  eexists. split; [reflexivity|]. cbn.
  repeat split.
  - intros v ->. reflexivity.
  - intros v ->. reflexivity.
  - intros v ->. reflexivity.
  - intros v ->. reflexivity.
  - intros -> v ->. reflexivity.
  - intros -> v ->. reflexivity.
  - intros ->. reflexivity.
  - intros -> ->. reflexivity.
  - intros -> ->. reflexivity.
  - intros ->. reflexivity.
  - intros cs e w'. apply session_env_blind.
Qed.

Lemma configuration_is_resolved_at_construction_witness :
  let w := set_env full_env (sample_world ∅ 1000 no_credentials) in
  (exists this,
     returned (constructor all_explicit w) = Ok this /\
     clientSecretFile this = "secret.json" /\
     authStateFile this = false_ /\
     defaultRefreshToken this = Some "RT1" /\
     log this = custom "quiet") /\
  (exists this,
     returned (constructor only_scopes w) = Ok this /\
     clientSecretFile this = "env-secret.json" /\
     authStateFile this = str "env-auth.json" /\
     defaultRefreshToken this = Some "RT-env" /\
     log this = console_log).
Proof.
  intros w. split.
  - destruct (configuration_is_resolved_at_construction all_explicit w)
      as (this & Hrun & Hsecret & Hstate & Htoken & Hlog & _).
    exists this. rewrite Hrun. repeat split.
    + apply Hsecret. reflexivity.
    + apply Hstate. reflexivity.
    + apply Htoken. reflexivity.
    + apply Hlog. reflexivity.
  - destruct (configuration_is_resolved_at_construction only_scopes w)
      as (this & Hrun & _ & _ & _ & _ & Hsecret & Hstate & Htoken & _ & _ & Hlog & _).
    exists this. rewrite Hrun. repeat split.
    + apply Hsecret; reflexivity.
    + apply Hstate; reflexivity.
    + rewrite Htoken; reflexivity.
    + apply Hlog. reflexivity.
Defined.

(** ** Log messages *)

(** In the refresh branch there is one message, chosen by the truthiness
    of [expiry_date]. *)
Lemma renewal_logged this w client creds :
  returned (createAuthClient this w) = Ok client ->
  returned (cachedCredentials this w) = Ok creds ->
  ~ usable creds (now w) ->
  logged (emitted (getAuthenticatedAuthClient this w)) = [renewal_message creds].
Proof.
  intros Hclient Hcreds Hstale.
  destruct (to_boolean (refresh_token creds)) eqn:Hrt.
  2: { rewrite (run_missing _ _ _ _ Hclient Hcreds Hstale Hrt).
       count_calls this w creds; reflexivity. }
  destruct (refresh_answer w creds) as [response|err] eqn:Hans.
  - rewrite (run_renewed _ _ _ _ _ Hclient Hcreds Hstale Hrt Hans).
    count_calls this w creds; reflexivity.
  - rewrite (run_rejected _ _ _ _ _ Hclient Hcreds Hstale Hrt Hans).
    count_calls this w creds; reflexivity.
Qed.

Lemma falsy_expiry_not_usable c t :
  to_boolean (expiry_date c) = false -> ~ usable c t.
Proof.
  intros Hf (e & He & Hne & _). rewrite He in Hf. cbn in Hf.
  unfold to_boolean, number_to_boolean in Hf.
  destruct (Z.eqb_spec e 0); [contradiction|discriminate].
Qed.

(** C10. A store file whose [expiry_date] is falsy -- [0], [null] or
    absent -- is handled as one without expiry: the clock is not read, the
    message is the no-token-found one although the file may hold an access
    token and an expiry field, and the refresh branch runs (one refresh with
    a refresh token, the missing-refresh-token error without). Of the two
    messages of the refresh branch, the one logged is chosen by the
    truthiness of [expiry_date]. *)
Theorem falsy_expiry_date_means_no_token this w client :
  returned (createAuthClient this w) = Ok client ->
  let o := getAuthenticatedAuthClient this w in
  (forall p c,
     store_path this = Some p ->
     stored w p = Some c ->
     to_boolean (expiry_date c) = false ->
     logged (emitted o) = ["No token found, getting new one..."] /\
     count is_clock_read (emitted o) = 0%nat /\
     (to_boolean (refresh_token c) = true -> count is_refresh (emitted o) = 1%nat) /\
     (to_boolean (refresh_token c) = false ->
      returned o = Throw (Error missing_refresh_token))) /\
  (forall creds,
     returned (cachedCredentials this w) = Ok creds ->
     ~ usable creds (now w) ->
     logged (emitted o) =
       [if to_boolean (expiry_date creds)
        then "Token expired, renewing..."
        else "No token found, getting new one..."]).
Proof.
  intros Hclient o. subst o. split.
  - intros p c Hp Hc Hfalsy.
    assert (Hcreds : returned (cachedCredentials this w) = Ok c).
    { rewrite (cachedCredentials_from_store _ _ _ _ Hp Hc). reflexivity. }
    pose proof (falsy_expiry_not_usable c (now w) Hfalsy) as Hstale.
    split; [|split; [|split]].
    + rewrite (renewal_logged _ _ _ _ Hclient Hcreds Hstale).
      unfold renewal_message. rewrite Hfalsy. reflexivity.
    + assert (Hpre : count is_clock_read (preamble this w) = 0%nat).
      { unfold preamble. rewrite (cachedCredentials_from_store _ _ _ _ Hp Hc).
        reflexivity. }
      assert (Htest : test_calls c = []).
      { unfold test_calls. rewrite Hfalsy. reflexivity. }
      destruct (to_boolean (refresh_token c)) eqn:Hrt.
      2: { rewrite (run_missing _ _ _ _ Hclient Hcreds Hstale Hrt). project.
           rewrite Htest, !count_app, Hpre. reflexivity. }
      destruct (refresh_answer w c) as [response|err] eqn:Hans.
      * rewrite (run_renewed _ _ _ _ _ Hclient Hcreds Hstale Hrt Hans). project.
        rewrite Htest, persist_emitted, Hp, !count_app, Hpre. reflexivity.
      * rewrite (run_rejected _ _ _ _ _ Hclient Hcreds Hstale Hrt Hans). project.
        rewrite Htest, !count_app, Hpre. reflexivity.
    + intros Hrt. eapply one_refresh_when_stale; eassumption.
    + intros Hrt. rewrite (run_missing _ _ _ _ Hclient Hcreds Hstale Hrt).
      reflexivity.
  - intros creds Hcreds Hstale.
    apply (renewal_logged _ _ _ _ Hclient Hcreds Hstale).
Qed.

Lemma falsy_expiry_date_means_no_token_witness :
  let this := sample_manager (str "auth.json") None in
  let c := token_set (val "RT1") (val 0) (val "AT0") in
  let w := sample_world (cache_of c) 5000 no_credentials in
  let o := getAuthenticatedAuthClient this w in
  logged (emitted o) = ["No token found, getting new one..."] /\
  count is_clock_read (emitted o) = 0%nat /\
  count is_refresh (emitted o) = 1%nat.
Proof.
  intros this c w o.
  destruct (falsy_expiry_date_means_no_token this w sample_client eq_refl)
    as [Hfalsy _].
  destruct (Hfalsy "auth.json" c eq_refl eq_refl eq_refl)
    as (Hlog & Hclock & Hone & _).
  split; [exact Hlog|]. split; [exact Hclock|]. apply Hone. reflexivity.
Defined.

(** ** The calls of one run *)

Lemma cachedCredentials_asks this w p :
  store_path this = Some p ->
  emitted (cachedCredentials this w) =
  existsSync_call p ::
  match fs.stat (fs w) p with
  | Some _ => [readFileSync_call p]
  | None => []
  end.
Proof.
  unfold store_path, cachedCredentials, bind, fs.existsSync, fs.readFileSync.
  destruct (authStateFile this) as [|file]; [discriminate|]. cbn.
  destruct (to_boolean file); [|discriminate].
  intros [= ->]. cbn.
  destruct (fs.stat (fs w) p) as [[|[|d]]|] eqn:E; rewrite ?E; reflexivity.
Qed.

Lemma is_read_of_same p : is_read_of p (readFileSync_call p) = true.
Proof. cbn. destruct (decide (p = p)); [reflexivity|contradiction]. Qed.

Lemma is_read_of_other p q : q <> p -> is_read_of p (readFileSync_call q) = false.
Proof. intros H. cbn. destruct (decide (q = p)); [contradiction|reflexivity]. Qed.

Lemma preamble_reads this w p :
  store_path this = Some p ->
  p <> clientSecretFile this ->
  count (is_read_of p) (preamble this w) =
  match fs.stat (fs w) p with Some _ => 1%nat | None => 0%nat end.
Proof.
  intros Hp Hne. unfold preamble.
  rewrite (cachedCredentials_asks _ _ _ Hp), !count_cons.
  rewrite is_read_of_other by congruence. cbn.
  destruct (fs.stat (fs w) p); [|reflexivity].
  rewrite count_cons, is_read_of_same. reflexivity.
Qed.

Lemma test_calls_reads p c : count (is_read_of p) (test_calls c) = 0%nat.
Proof. unfold test_calls. destruct (to_boolean _); reflexivity. Qed.

(** A store file that is there but does not parse stops the call before
    any message. *)
Lemma cachedCredentials_throws_stat this w err p :
  returned (cachedCredentials this w) = Throw err ->
  store_path this = Some p ->
  fs.stat (fs w) p <> None.
Proof.
  intros H Hp E. rewrite (cachedCredentials_no_file _ _ _ Hp E) in H. discriminate.
Qed.

(** The events of a run, case by case. *)
Lemma run_cases this w :
  let o := getAuthenticatedAuthClient this w in
  (exists err, returned (createAuthClient this w) = Throw err /\
     emitted o = [readFileSync_call (clientSecretFile this)]) \/
  (exists client, returned (createAuthClient this w) = Ok client /\
     ((exists err, returned (cachedCredentials this w) = Throw err /\
         emitted o = preamble this w) \/
      (exists creds, returned (cachedCredentials this w) = Ok creds /\
         ((exists e, expiry_date creds = val e /\ e <> 0 /\ now w + 300000 <= e /\
             emitted o = preamble this w ++
               [Date_now_call; Date_now_call;
                log_call (log this)
                  ("Token is still valid for "
                   +:+ pretty ((e - clock w (S (ticks w))) `div` 60000)
                   +:+ " minutes")]) \/
          (~ usable creds (now w) /\
           exists rest,
             emitted o = preamble this w ++ test_calls creds ++
                         log_call (log this) (renewal_message creds) :: rest /\
             (rest = [] \/ rest = [refreshAccessToken_call creds] \/
              exists p data, store_path this = Some p /\
                rest = [refreshAccessToken_call creds; writeFileSync_call p data])))))).
Proof.
  intros o. subst o.
  destruct (returned (createAuthClient this w)) as [client|err] eqn:Hclient.
  2: { left. exists err. rewrite (run_no_client _ _ _ Hclient). auto. }
  right. exists client. split; [reflexivity|].
  destruct (returned (cachedCredentials this w)) as [creds|err] eqn:Hcreds.
  2: { left. exists err. rewrite (run_no_cache _ _ _ _ Hclient Hcreds). auto. }
  right. exists creds. split; [reflexivity|].
  destruct (usable_dec creds (now w)) as [Hu|Hstale].
  { left. rewrite (run_reuse _ _ _ _ Hclient Hcreds Hu).
    destruct Hu as (e & He & Hne & Hle). exists e. rewrite He.
    repeat split; assumption. }
  right. split; [exact Hstale|].
  destruct (to_boolean (refresh_token creds)) eqn:Hrt.
  2: { rewrite (run_missing _ _ _ _ Hclient Hcreds Hstale Hrt). eauto. }
  destruct (refresh_answer w creds) as [response|err] eqn:Hans.
  - rewrite (run_renewed _ _ _ _ _ Hclient Hcreds Hstale Hrt Hans). project.
    rewrite persist_emitted.
    destruct (store_path this) as [p|]; eauto 10.
  - rewrite (run_rejected _ _ _ _ _ Hclient Hcreds Hstale Hrt Hans). eauto 10.
Qed.

(** C9 (amended). A call of [getAuthenticatedAuthClient] reads the store
    file at most once -- once when the client secret was read and the store
    path exists, not at all otherwise --, writes it at most once and logs at
    most one message. When the client secret and the store are read without
    error it logs exactly one: the no-token-found message when
    [expiry_date] is falsy, the token-expired message when it is truthy but
    stale, and otherwise the still-valid message with the floor of
    (expiry - clock at the second reading) / 60000. When one of the two reads
    fails it logs nothing. *)
Theorem calls_of_one_run this w :
  let o := getAuthenticatedAuthClient this w in
  (forall p,
     store_path this = Some p ->
     p <> clientSecretFile this ->
     count (is_read_of p) (emitted o) =
       match returned (createAuthClient this w), fs.stat (fs w) p with
       | Ok _, Some _ => 1%nat
       | _, _ => 0%nat
       end) /\
  (count is_write (emitted o) <= 1)%nat /\
  (length (logged (emitted o)) <= 1)%nat /\
  (forall client creds,
     returned (createAuthClient this w) = Ok client ->
     returned (cachedCredentials this w) = Ok creds ->
     (to_boolean (expiry_date creds) = false ->
      logged (emitted o) = ["No token found, getting new one..."]) /\
     (to_boolean (expiry_date creds) = true ->
      ~ usable creds (now w) ->
      logged (emitted o) = ["Token expired, renewing..."]) /\
     (forall e,
        expiry_date creds = val e -> e <> 0 -> now w + 300000 <= e ->
        logged (emitted o) =
          ["Token is still valid for "
           +:+ pretty ((e - clock w (S (ticks w))) `div` 60000)
           +:+ " minutes"])) /\
  ((forall client, returned (createAuthClient this w) <> Ok client) \/
   (forall creds, returned (cachedCredentials this w) <> Ok creds) ->
   logged (emitted o) = []).
Proof.
  intros o. subst o.
  destruct (preamble_counts this w) as (_ & Hpw & Hpl).
  split; [|split; [|split; [|split]]].
  - intros p Hp Hne.
    pose proof (preamble_reads this w p Hp Hne) as Hreads.
    destruct (run_cases this w)
      as [(err & -> & ->)
         |(client & -> & [(err & _ & ->)
                         |(creds & _ & [(e & _ & _ & _ & ->)
                                       |(_ & rest & -> & Hrest)])])].
    + rewrite count_cons, is_read_of_other by congruence. reflexivity.
    + exact Hreads.
    + rewrite count_app, Hreads. cbn.
      destruct (fs.stat (fs w) p); reflexivity.
    + rewrite !count_app, Hreads, test_calls_reads, count_cons. cbn.
      assert (count (is_read_of p) rest = 0%nat) as ->.
      { destruct Hrest as [-> | [-> | (q & data & _ & ->)]]; reflexivity. }
      destruct (fs.stat (fs w) p); reflexivity.
  - destruct (run_cases this w)
      as [(err & _ & ->)
         |(client & _ & [(err & _ & ->)
                         |(creds & _ & [(e & _ & _ & _ & ->)
                                       |(_ & rest & -> & Hrest)])])].
    + rewrite count_cons, count_nil. cbn. lia.
    + rewrite Hpw. lia.
    + rewrite count_app, Hpw, !count_cons, count_nil. cbn. lia.
    + destruct (test_calls_counts creds) as (_ & Htw & _).
      rewrite !count_app, Hpw, Htw, count_cons. cbn.
      destruct Hrest as [-> | [-> | (q & data & _ & ->)]];
        rewrite ?count_cons, ?count_nil; cbn; lia.
  - destruct (run_cases this w)
      as [(err & _ & ->)
         |(client & _ & [(err & _ & ->)
                         |(creds & _ & [(e & _ & _ & _ & ->)
                                       |(_ & rest & -> & Hrest)])])].
    + cbn. lia.
    + rewrite Hpl. cbn. lia.
    + rewrite logged_app, Hpl. cbn. lia.
    + destruct (test_calls_counts creds) as (_ & _ & Htl).
      rewrite !logged_app, Hpl, Htl.
      destruct Hrest as [-> | [-> | (q & data & _ & ->)]]; cbn; lia.
  - intros client creds Hclient Hcreds. split; [|split].
    + intros Hfalsy.
      rewrite (renewal_logged _ _ _ _ Hclient Hcreds
                 (falsy_expiry_not_usable _ _ Hfalsy)).
      unfold renewal_message. rewrite Hfalsy. reflexivity.
    + intros Htruthy Hstale.
      rewrite (renewal_logged _ _ _ _ Hclient Hcreds Hstale).
      unfold renewal_message. rewrite Htruthy. reflexivity.
    + intros e He Hne Hle.
      assert (Hu : usable creds (now w)) by (exists e; auto).
      rewrite (run_reuse _ _ _ _ Hclient Hcreds Hu). project.
      rewrite logged_app, Hpl, He. reflexivity.
  - intros Hfail.
    destruct (run_cases this w)
      as [(err & _ & ->)
         |(client & Hclient & [(err & _ & ->)
                         |(creds & Hcreds & _)])].
    + reflexivity.
    + exact Hpl.
    + exfalso. destruct Hfail as [H|H]; [eapply H|eapply H]; eassumption.
Qed.

Lemma calls_of_one_run_witness :
  let this := sample_manager (str "auth.json") None in
  let creds := token_set (val "RT1") (val 4600000) (val "AT1") in
  let w := sample_world (cache_of creds) 1000000 no_credentials in
  let o := getAuthenticatedAuthClient this w in
  count (is_read_of "auth.json") (emitted o) = 1%nat /\
  (count is_write (emitted o) <= 1)%nat /\
  logged (emitted o) = ["Token is still valid for 59 minutes"].
Proof.
  intros this creds w o.
  destruct (calls_of_one_run this w) as (Hreads & Hwrites & _ & Hlog & _).
  split; [|split].
  - apply (Hreads "auth.json"); [reflexivity | discriminate].
  - exact Hwrites.
  - destruct (Hlog sample_client creds eq_refl eq_refl) as (_ & _ & Hvalid).
    apply (Hvalid 4600000); [reflexivity | discriminate | discriminate].
Defined.

(** C9 as stated fails: on a first call, with persistence on and no store
    file yet, the store is probed with [existsSync] but not read. *)
Lemma exactly_one_store_read_refuted :
  ~ (forall this w p,
       store_path this = Some p ->
       p <> clientSecretFile this ->
       let o := getAuthenticatedAuthClient this w in
       count (is_read_of p) (emitted o) = 1%nat /\
       (count is_write (emitted o) <= 1)%nat /\
       exists m, logged (emitted o) = [m]).
Proof.
  intros claim.
  destruct (claim (sample_manager (str "auth.json") (Some "RT1"))
                  (sample_world ∅ 1000000 no_credentials)
                  "auth.json" eq_refl) as (Hreads & _).
  - discriminate.
  - vm_compute in Hreads. discriminate Hreads.
Qed.

(** * Further properties of the manager *)

(** ** The client secret *)

(** What [createAuthClient] returns, by the state of the client-secret
    file. *)
Lemma createAuthClient_returned this w :
  returned (createAuthClient this w) =
  match fs.stat (fs w) (clientSecretFile this) with
  | None => Throw (SystemError ENOENT (clientSecretFile this))
  | Some Directory => Throw (SystemError EISDIR (clientSecretFile this))
  | Some (File Malformed) => Throw SyntaxError
  | Some (File (Json (TokenDocument _))) => Throw TypeError
  | Some (File (Json (SecretDocument web))) =>
      Ok {| _clientId := client_id web;
            _clientSecret := client_secret web;
            redirectUri := redirect_uris web !! 0%nat;
            credentials := no_credentials |}
  end.
Proof.
  unfold createAuthClient, bind, fs.readFileSync. cbn.
  destruct (fs.stat (fs w) (clientSecretFile this)) as [[|[|[web|c]]]|];
    cbn; try reflexivity.
  unfold new_OAuth2Client. rewrite head_lookup. reflexivity.
Qed.


(** The client depends on the client-secret file only. *)
Lemma createAuthClient_same_secret this w w' :
  fs.stat (fs w') (clientSecretFile this) = fs.stat (fs w) (clientSecretFile this) ->
  returned (createAuthClient this w') = returned (createAuthClient this w).
Proof.
  intros H. rewrite !createAuthClient_returned, H. reflexivity.
Qed.

Lemma getAuthUrl_run generateAuthUrl this w :
  getAuthUrl generateAuthUrl this w =
  Outcome
    match returned (createAuthClient this w) with
    | Ok authClient =>
        Ok (generateAuthUrl authClient
              {| access_type := "offline"; scope := scopes this |})
    | Throw err => Throw err
    end
    w
    [readFileSync_call (clientSecretFile this)].
Proof.
  unfold getAuthUrl, bind. rewrite createAuthClient_run.
  destruct (returned (createAuthClient this w)); reflexivity.
Qed.

(** X2. Each operation starts by reading the client secret, and when that
    fails the operation fails with the same error, having made no other
    call and changed nothing: no exchange, no refresh, no message, no
    access to the store. *)
Theorem client_secret_failure_stops_every_operation generateAuthUrl this w err :
  returned (createAuthClient this w) = Throw err ->
  getAuthenticatedAuthClient this w =
    Outcome (Throw err) w [readFileSync_call (clientSecretFile this)] /\
  (forall code,
     login this code w =
       Outcome (Throw err) w [readFileSync_call (clientSecretFile this)]) /\
  getAuthUrl generateAuthUrl this w =
    Outcome (Throw err) w [readFileSync_call (clientSecretFile this)].
Proof.
  intros H. split; [|split].
  - apply run_no_client, H.
  - intros code. apply login_no_client, H.
  - rewrite getAuthUrl_run, H. reflexivity.
Qed.

Lemma client_secret_failure_stops_every_operation_witness :
  let this := sample_manager (str "auth.json") (Some "RT1") in
  let w := set_fs (cache_of (token_set (val "RT0") (val 9000000) (val "AT0")))
                  (sample_world ∅ 1000 no_credentials) in
  returned (getAuthenticatedAuthClient this w) =
    Throw (SystemError ENOENT "secret.json") /\
  emitted (login this "code" w) = [readFileSync_call "secret.json"] /\
  after (getAuthUrl sample_generateAuthUrl this w) = w.
Proof.
  intros this w.
  destruct (client_secret_failure_stops_every_operation sample_generateAuthUrl
              this w (SystemError ENOENT "secret.json") eq_refl)
    as (Hget & Hlogin & Hurl).
  rewrite Hget, (Hlogin "code"), Hurl. repeat split.
Defined.

(** ** The authorization URL *)



(** ** [login] *)

(** X4. When the token endpoint rejects the code, [login] throws that
    same error after one request; it has created no directory, attempted no
    write, and the files are as they were. *)
Theorem rejected_exchange_writes_nothing this code w client err :
  returned (createAuthClient this w) = Ok client ->
  getToken_response (upstream w) (requests w) code = Throw err ->
  let o := login this code w in
  returned o = Throw err /\
  emitted o = [readFileSync_call (clientSecretFile this); getToken_call code] /\
  fs (after o) = fs w /\
  requests (after o) = S (requests w).
Proof.
  intros Hclient Hrejected o. subst o.
  rewrite (login_run _ _ _ _ Hclient). cbn zeta. rewrite Hrejected.
  repeat split.
Qed.

Lemma rejected_exchange_writes_nothing_witness :
  let this := sample_manager (str "cache/auth.json") None in
  let w := set_upstream (rejecting "invalid_grant")
                        (sample_world ∅ 1000 no_credentials) in
  returned (login this "code" w) = Throw (Error "invalid_grant") /\
  fs (after (login this "code" w)) = fs w.
Proof.
  intros this w.
  destruct (rejected_exchange_writes_nothing this "code" w sample_client
              (Error "invalid_grant") eq_refl eq_refl)
    as (Hret & _ & Hfs & _).
  split; assumption.
Defined.

Lemma mkdir1_errors target r d err :
  fs.mkdir1 target r d = Throw err ->
  (r = Throw err) \/
  err = SystemError EEXIST target \/ err = SystemError ENOTDIR target.
Proof.
  unfold fs.mkdir1. destruct r as [f|e]; [|intros [= ->]; auto].
  destruct (fs.stat f d) as [[|t]|]; try discriminate.
  destruct (decide (d = target)); intros [= <-]; auto.
Qed.

Lemma mkdirs_errors target ds : forall r err,
  foldl (fs.mkdir1 target) r ds = Throw err ->
  (r = Throw err) \/
  err = SystemError EEXIST target \/ err = SystemError ENOTDIR target.
Proof.
  induction ds as [|d ds IH]; cbn; intros r err H.
  - auto.
  - destruct (IH _ _ H) as [H1|H1]; [|auto].
    apply mkdir1_errors in H1. exact H1.
Qed.

(** The two ways [mkdir -p] fails: a file where a directory is wanted. *)
Lemma mkdirp_errors f d err :
  fs.mkdirp f d = Throw err ->
  err = SystemError EEXIST d \/ err = SystemError ENOTDIR d.
Proof.
  unfold fs.mkdirp. intros H.
  destruct (mkdirs_errors _ _ _ _ H) as [H1|H1]; [discriminate|exact H1].
Qed.

(** X5. Once the exchange has granted a token set, the write of [login]
    cannot fail for want of the store's parent directory: [login] returns,
    or it fails because a file stands where a directory is wanted
    ([EEXIST], [ENOTDIR] on the parent) or because the store path is itself a
    directory ([EISDIR]). *)
Theorem login_creates_parent_directories this code w client tokens p :
  returned (createAuthClient this w) = Ok client ->
  getToken_response (upstream w) (requests w) code = Ok tokens ->
  store_path this = Some p ->
  let o := login this code w in
  returned o <> Throw (SystemError ENOENT p) /\
  (returned o = Ok tt /\ stored (after o) p = Some tokens /\
   fs.stat (fs (after o)) (path.dirname p) = Some Directory \/
   returned o = Throw (SystemError EISDIR p) \/
   returned o = Throw (SystemError EEXIST (path.dirname p)) \/
   returned o = Throw (SystemError ENOTDIR (path.dirname p))).
Proof.
  intros Hclient Hgranted Hp o. subst o.
  rewrite (login_run _ _ _ _ Hclient). cbn zeta. rewrite Hgranted, Hp.
  destruct (fs.mkdirp (fs w) (path.dirname p)) as [f1|err] eqn:Hmk.
  2: { destruct (mkdirp_errors _ _ _ Hmk) as [-> | ->]; cbn;
         (split; [discriminate | auto]). }
  pose proof (mkdirp_creates _ _ _ Hmk) as Hdir.
  pose proof (write_after_mkdirp _ p _ (Json (TokenDocument tokens)) Hmk) as Hnot.
  destruct (fs.write f1 p (Json (TokenDocument tokens))) as [f2|err] eqn:Hwrite; cbn.
  - split; [discriminate|]. left. split; [reflexivity|]. split.
    + unfold stored. cbn. rewrite (write_stat _ _ _ _ Hwrite). reflexivity.
    + destruct (decide (path.dirname p = p)) as [Heq|Hne].
      * exfalso. revert Hwrite. unfold fs.write.
        rewrite Heq in Hdir. rewrite Hdir. discriminate.
      * rewrite (write_stat_ne _ _ _ _ _ Hwrite Hne). exact Hdir.
  - split; [intros [= ->]; apply Hnot; reflexivity|]. right. left.
    revert Hwrite. unfold fs.write. rewrite Hdir.
    destruct (fs.stat f1 p) as [[|t]|]; try discriminate.
    intros [= <-]. reflexivity.
Qed.

Lemma login_creates_parent_directories_witness :
  let this := sample_manager (str "cache/deep/auth.json") None in
  let tokens := token_set (val "RT2") (val 9000000) (val "AT9") in
  let w := sample_world ∅ 1000 tokens in
  let o := login this "code" w in
  returned o = Ok tt /\
  stored (after o) "cache/deep/auth.json" = Some tokens /\
  fs.stat (fs (after o)) "cache/deep" = Some Directory.
Proof.
  intros this tokens w o.
  destruct (login_creates_parent_directories this "code" w sample_client tokens
              "cache/deep/auth.json" eq_refl eq_refl eq_refl)
    as [_ [Hok | [Hbad | [Hbad | Hbad]]]].
  - exact Hok.
  - discriminate Hbad.
  - discriminate Hbad.
  - discriminate Hbad.
Defined.

(** ** What is written is what is read back *)

Lemma createAuthClient_Ok_stat this w client :
  returned (createAuthClient this w) = Ok client ->
  exists n, fs.stat (fs w) (clientSecretFile this) = Some n.
Proof.
  rewrite createAuthClient_returned.
  destruct (fs.stat (fs w) (clientSecretFile this)) as [n|]; [eauto|discriminate].
Qed.

(** A call that finds a usable token set in the store hands it out. *)
Lemma reuse_from_store this w client p c :
  returned (createAuthClient this w) = Ok client ->
  store_path this = Some p ->
  stored w p = Some c ->
  usable c (now w) ->
  let o := getAuthenticatedAuthClient this w in
  returned o = Ok (setCredentials client c) /\
  count is_request (emitted o) = 0%nat /\
  count is_write (emitted o) = 0%nat /\
  fs (after o) = fs w.
Proof.
  intros Hclient Hp Hc Hu o. subst o.
  assert (Hcreds : returned (cachedCredentials this w) = Ok c).
  { rewrite (cachedCredentials_from_store _ _ _ _ Hp Hc). reflexivity. }
  rewrite (run_reuse _ _ _ _ Hclient Hcreds Hu). project.
  unfold preamble. rewrite (cachedCredentials_from_store _ _ _ _ Hp Hc). cbn.
  repeat split.
Qed.



(** X7. A call that refreshed and returned, followed by a call while the
    refreshed token is still usable: the second call returns the client the
    first one returned, sends nothing to the token endpoint and writes
    nothing. *)
Theorem refresh_then_reuse this w client1 p creds response :
  store_path this = Some p ->
  p <> clientSecretFile this ->
  returned (cachedCredentials this w) = Ok creds ->
  ~ usable creds (now w) ->
  refresh_answer w creds = Ok response ->
  returned (getAuthenticatedAuthClient this w) = Ok client1 ->
  let w1 := after (getAuthenticatedAuthClient this w) in
  (exists e, expiry_date response = val e /\ e <> 0 /\ now w1 + 300000 <= e) ->
  let o := getAuthenticatedAuthClient this w1 in
  access_token (credentials client1) = access_token response /\
  returned o = Ok client1 /\
  count is_request (emitted o) = 0%nat /\
  count is_write (emitted o) = 0%nat /\
  fs (after o) = fs w1.
Proof.
  intros Hp Hne Hcreds Hstale Hans Hret w1 Hfresh o. subst o w1.
  destruct (returned (createAuthClient this w)) as [client|err] eqn:Hclient.
  2: { rewrite (run_no_client _ _ _ Hclient) in Hret. discriminate. }
  destruct (to_boolean (refresh_token creds)) eqn:Hrt.
  2: { rewrite (run_missing _ _ _ _ Hclient Hcreds Hstale Hrt) in Hret.
       discriminate. }
  destruct (createAuthClient_Ok_stat _ _ _ Hclient) as [n Hn].
  revert Hret Hfresh.
  rewrite (run_renewed _ _ _ _ _ Hclient Hcreds Hstale Hrt Hans). project.
  rewrite persist_run, Hp. cbn. rewrite after_test_fs.
  destruct (fs.write (fs w) p (Json (TokenDocument (renewed creds response))))
    as [f|err] eqn:Hwrite; [|discriminate].
  cbn. intros [= <-] Hfresh. split; [reflexivity|].
  apply reuse_from_store with (p := p).
  - rewrite <- Hclient. apply createAuthClient_same_secret. cbn.
    apply (write_stat_ne _ _ _ _ _ Hwrite). congruence.
  - exact Hp.
  - unfold stored. cbn. rewrite (write_stat _ _ _ _ Hwrite). reflexivity.
  - exact Hfresh.
Qed.

Lemma refresh_then_reuse_witness :
  let this := sample_manager (str "auth.json") (Some "RT1") in
  let w := sample_world ∅ 1000000 no_credentials in
  let first := getAuthenticatedAuthClient this w in
  let second := getAuthenticatedAuthClient this (after first) in
  returned second = returned first /\
  count is_request (emitted first) = 1%nat /\
  count is_request (emitted second) = 0%nat.
Proof.
  intros this w first second.
  assert (Hstale : ~ usable (seeded this) (now w)).
  { intros (e & He & _). discriminate He. }
  destruct (refresh_then_reuse this w
              (setCredentials sample_client
                 (token_set (val "RT1") (val 4600000) (val "AT1")))
              "auth.json" (seeded this)
              (token_set undefined (val 4600000) (val "AT1"))
              eq_refl ltac:(discriminate) eq_refl Hstale eq_refl eq_refl)
    as (_ & Hret & Hnone & _).
  { exists 4600000. repeat split; [discriminate|]. vm_compute. discriminate. }
  split; [exact Hret|]. split; [reflexivity | exact Hnone].
Defined.

(** ** Edge cases of the configuration *)

(** X8. The manager the constructor builds depends on the environment
    through three variables only: [GOOGLE_CLIENT_SECRET_FILE],
    [GOOGLE_AUTH_STATE_FILE] and [GOOGLE_REFRESH_TOKEN]. Any other variable,
    [GOOGLE_ACCESS_TOKEN_FILE] of the doc comment included, has no effect. *)
Theorem constructor_reads_three_variables options w w' :
  (forall name, name ∈ configuration_variables -> env w' !! name = env w !! name) ->
  returned (constructor options w') = returned (constructor options w).
Proof.
  intros Hsame. unfold constructor, bind, process_env. cbn.
  rewrite !Hsame by (unfold configuration_variables; set_solver).
  reflexivity.
Qed.

Lemma constructor_reads_three_variables_witness :
  let w := set_env full_env (sample_world ∅ 1000 no_credentials) in
  let w' := set_env (<["GOOGLE_ACCESS_TOKEN_FILE" := "elsewhere.json"]> full_env) w in
  returned (constructor only_scopes w') = returned (constructor only_scopes w) /\
  (exists this, returned (constructor only_scopes w') = Ok this /\
                authStateFile this = str "env-auth.json").
Proof.
  intros w w'.
  assert (H : returned (constructor only_scopes w') = returned (constructor only_scopes w)).
  { apply constructor_reads_three_variables.
    intros name Hin. unfold configuration_variables in Hin.
    apply elem_of_cons in Hin as [-> | Hin]; [reflexivity|].
    apply elem_of_cons in Hin as [-> | Hin]; [reflexivity|].
    apply elem_of_cons in Hin as [-> | Hin]; [reflexivity|].
    apply elem_of_nil in Hin. contradiction. }
  split; [exact H|]. rewrite H. eexists. split; reflexivity.
Defined.

(** X9. An empty auth-state path switches persistence off. The methods
    test the truthiness of [authStateFile], so a manager whose
    [authStateFile] is the empty string behaves in every call exactly as one
    whose [authStateFile] is [false]; and since [??] keeps empty strings,
    the constructor yields such a manager for an explicit [''] as well as for
    a [GOOGLE_AUTH_STATE_FILE] that is set but empty. *)
Theorem empty_authStateFile_is_disabled this w :
  getAuthenticatedAuthClient (set_authStateFile (str "") this) w =
    getAuthenticatedAuthClient (set_authStateFile false_ this) w /\
  (forall code,
     login (set_authStateFile (str "") this) code w =
       login (set_authStateFile false_ this) code w) /\
  (forall options built,
     returned (constructor options w) = Ok built ->
     GoogleOfflineAccessOptions.authStateFile options = Some (str "") \/
     (GoogleOfflineAccessOptions.authStateFile options = None /\
      env w !! "GOOGLE_AUTH_STATE_FILE" = Some "") ->
     authStateFile built = str "" /\ store_path built = None).
Proof.
  split; [reflexivity|]. split; [intros; reflexivity|].
  intros options built Hbuilt Hempty. cbn in Hbuilt. injection Hbuilt as <-.
  unfold store_path. cbn.
  destruct Hempty as [-> | [-> ->]]; cbn; split; reflexivity.
Qed.

(** X10. An empty default refresh token is no default refresh token:
    [getAuthenticatedAuthClient] with [defaultRefreshToken] the empty string
    runs exactly as with none. [login] does not look at the default refresh
    token at all. *)
Theorem empty_defaultRefreshToken_is_none this w :
  getAuthenticatedAuthClient (set_defaultRefreshToken (Some "") this) w =
    getAuthenticatedAuthClient (set_defaultRefreshToken None this) w /\
  (forall code v v',
     login (set_defaultRefreshToken v this) code w =
       login (set_defaultRefreshToken v' this) code w).
Proof. split; [reflexivity | intros; reflexivity]. Qed.

Lemma empty_authStateFile_is_disabled_witness :
  let w := set_env {[ "GOOGLE_AUTH_STATE_FILE" := "" ]}
                   (sample_world ∅ 1000 no_credentials) in
  exists built,
    returned (constructor only_scopes w) = Ok built /\
    authStateFile built = str "" /\
    store_path built = None.
Proof.
  intros w. eexists. split; [reflexivity|].
  destruct (empty_authStateFile_is_disabled
              (sample_manager false_ None) w) as (_ & _ & Hbuilt).
  apply (Hbuilt only_scopes); [reflexivity|].
  right. split; reflexivity.
Defined.

(** ** Errors on the way *)

(** X11. A store that is there but cannot be read is fatal: when the store
    path holds text that is not JSON the call throws the syntax error, when
    it is a directory the call throws [EISDIR]; in both cases after the
    [existsSync] and [readFileSync] of the store and nothing else -- no
    message, no refresh, no write -- even if a default refresh token is
    configured. *)
Theorem unreadable_store_is_fatal this w client p :
  returned (createAuthClient this w) = Ok client ->
  store_path this = Some p ->
  (fs.stat (fs w) p = Some (File Malformed) ->
   getAuthenticatedAuthClient this w =
     Outcome (Throw SyntaxError) w
       [readFileSync_call (clientSecretFile this);
        existsSync_call p; readFileSync_call p]) /\
  (fs.stat (fs w) p = Some Directory ->
   getAuthenticatedAuthClient this w =
     Outcome (Throw (SystemError EISDIR p)) w
       [readFileSync_call (clientSecretFile this);
        existsSync_call p; readFileSync_call p]).
Proof.
  intros Hclient Hp.
  assert (Hrun : forall n err,
    fs.stat (fs w) p = Some n ->
    match n with
    | File (Json _) => False
    | File Malformed => err = SyntaxError
    | Directory => err = SystemError EISDIR p
    end ->
    getAuthenticatedAuthClient this w =
      Outcome (Throw err) w
        [readFileSync_call (clientSecretFile this);
         existsSync_call p; readFileSync_call p]).
  { intros n err Hn Herr.
    assert (Hthrows : returned (cachedCredentials this w) = Throw err).
    { revert Hp. unfold store_path, cachedCredentials, bind,
        fs.existsSync, fs.readFileSync.
      destruct (authStateFile this) as [|file]; [discriminate|]. cbn.
      destruct (to_boolean file); [|discriminate].
      intros [= ->]. cbn. rewrite !Hn. cbn.
      destruct n as [|[|d]]; try contradiction; subst err; cbn; rewrite ?Hn;
        reflexivity. }
    rewrite (run_no_cache _ _ _ _ Hclient Hthrows).
    unfold preamble. rewrite (cachedCredentials_asks _ _ _ Hp), Hn. reflexivity. }
  split; intros Hn; eapply Hrun; try exact Hn; reflexivity.
Qed.

Lemma unreadable_store_is_fatal_witness :
  let this := sample_manager (str "auth.json") (Some "RT1") in
  let w := sample_world {[ "auth.json" := File Malformed ]} 1000 no_credentials in
  returned (getAuthenticatedAuthClient this w) = Throw SyntaxError /\
  count is_refresh (emitted (getAuthenticatedAuthClient this w)) = 0%nat.
Proof.
  intros this w.
  destruct (unreadable_store_is_fatal this w sample_client "auth.json"
              eq_refl eq_refl) as [Hbad _].
  rewrite (Hbad eq_refl). split; reflexivity.
Defined.

(** X12. When the token endpoint rejects the refresh, the call throws that
    same error after exactly one request: there is no retry, no write is
    attempted, and the files are as they were. *)
Theorem rejected_refresh_leaves_store this w client creds err :
  returned (createAuthClient this w) = Ok client ->
  returned (cachedCredentials this w) = Ok creds ->
  ~ usable creds (now w) ->
  to_boolean (refresh_token creds) = true ->
  refresh_answer w creds = Throw err ->
  let o := getAuthenticatedAuthClient this w in
  returned o = Throw err /\
  filter (fun e => is_request e = true) (emitted o) = [refreshAccessToken_call creds] /\
  count is_write (emitted o) = 0%nat /\
  fs (after o) = fs w /\
  requests (after o) = S (requests w).
Proof.
  intros Hclient Hcreds Hstale Hrt Hans o. subst o.
  rewrite (run_rejected _ _ _ _ _ Hclient Hcreds Hstale Hrt Hans). project.
  assert (Hquiet : filter (fun e => is_request e = true)
                     (preamble this w ++ test_calls creds) = []).
  { unfold preamble, test_calls.
    destruct (cachedCredentials_emitted this w) as [-> | (p & _ & [-> | ->])];
      destruct (to_boolean (expiry_date creds)); reflexivity. }
  split; [reflexivity|]. split; [|split; [|split]].
  - rewrite app_assoc, filter_app, Hquiet. reflexivity.
  - count_calls this w creds. reflexivity.
  - cbn. apply after_test_fs.
  - unfold after_test. destruct (to_boolean (expiry_date creds)); reflexivity.
Qed.

Lemma rejected_refresh_leaves_store_witness :
  let this := sample_manager (str "auth.json") None in
  let creds := token_set (val "RT1") (val 1000) (val "AT0") in
  let w := set_upstream (rejecting "invalid_grant")
                        (sample_world (cache_of creds) 5000 no_credentials) in
  let o := getAuthenticatedAuthClient this w in
  returned o = Throw (Error "invalid_grant") /\
  stored (after o) "auth.json" = Some creds.
Proof.
  intros this creds w o.
  assert (Hstale : ~ usable creds (now w)).
  { intros (e & He & _ & Hle). inversion He; subst e. vm_compute in Hle.
    apply Hle. reflexivity. }
  destruct (rejected_refresh_leaves_store this w sample_client creds
              (Error "invalid_grant") eq_refl eq_refl Hstale eq_refl eq_refl)
    as (Hret & _ & _ & Hfs & _).
  split; [exact Hret|]. unfold stored. subst o. rewrite Hfs. reflexivity.
Defined.

(** ** The client that is returned *)



(** ** What each operation may call *)

Lemma preamble_repertoire this w :
  Forall (refresh_repertoire this) (preamble this w).
Proof.
  unfold preamble. constructor; [left; reflexivity|].
  destruct (cachedCredentials_emitted this w) as [-> | (p & Hp & [-> | ->])].
  - constructor.
  - repeat constructor; exact Hp.
  - constructor; [exact Hp|]. constructor; [right; exact Hp|]. constructor.
Qed.

Lemma test_calls_repertoire this c :
  Forall (refresh_repertoire this) (test_calls c).
Proof.
  unfold test_calls. destruct (to_boolean _); repeat constructor.
Qed.

Lemma preamble_requests this w : count is_request (preamble this w) = 0%nat.
Proof.
  unfold preamble.
  destruct (cachedCredentials_emitted this w) as [-> | (p & _ & [-> | ->])];
    reflexivity.
Qed.

Lemma test_calls_requests c : count is_request (test_calls c) = 0%nat.
Proof. unfold test_calls. destruct (to_boolean _); reflexivity. Qed.

(** X14. [getAuthenticatedAuthClient] calls nothing but: the read of the
    client secret, [existsSync], [readFileSync] and [writeFileSync] on the
    store path, the clock, its own log sink and the refresh of the access
    token; it never exchanges a code and never creates a directory. [login]
    calls nothing but: the read of the client secret, the exchange of the
    code it was given, [mkdirSync] on the store's parent and
    [writeFileSync] on the store path; it never reads the store or the
    clock, never logs and never refreshes. Neither sends more than one
    request to the token endpoint. *)
Theorem operations_stay_in_their_repertoire this w :
  (Forall (refresh_repertoire this) (emitted (getAuthenticatedAuthClient this w)) /\
   (count is_request (emitted (getAuthenticatedAuthClient this w)) <= 1)%nat) /\
  (forall code,
     Forall (login_repertoire this code) (emitted (login this code w)) /\
     (count is_request (emitted (login this code w)) <= 1)%nat /\
     (count is_write (emitted (login this code w)) <= 1)%nat).
Proof.
  split.
  - pose proof (preamble_repertoire this w) as Hpre.
    pose proof (preamble_requests this w) as Hreq.
    destruct (run_cases this w)
      as [(err & _ & ->)
         |(client & _ & [(err & _ & ->)
                         |(creds & _ & [(e & _ & _ & _ & ->)
                                       |(_ & rest & -> & Hrest)])])].
    + split; [|rewrite count_cons, count_nil; cbn; lia].
      constructor; [left; reflexivity | constructor].
    + split; [exact Hpre | rewrite Hreq; lia].
    + split.
      * apply Forall_app. split; [exact Hpre|]. repeat constructor.
      * rewrite count_app, Hreq, !count_cons, count_nil. cbn. lia.
    + pose proof (test_calls_repertoire this creds) as Htest.
      split.
      * apply Forall_app. split; [exact Hpre|].
        apply Forall_app. split; [exact Htest|].
        constructor; [reflexivity|].
        destruct Hrest as [-> | [-> | (p & data & Hp & ->)]];
          repeat constructor; exact Hp.
      * rewrite !count_app, Hreq, test_calls_requests, count_cons. cbn.
        destruct Hrest as [-> | [-> | (p & data & _ & ->)]];
          rewrite ?count_cons, ?count_nil; cbn; lia.
  - intros code.
    destruct (returned (createAuthClient this w)) as [client|err] eqn:Hclient.
    2: { rewrite (login_no_client _ _ _ _ Hclient). project.
         rewrite !count_cons, !count_nil. cbn.
         split; [repeat constructor | split; lia]. }
    rewrite (login_run _ _ _ _ Hclient). cbn zeta.
    destruct (getToken_response (upstream w) (requests w) code) as [tokens|err].
    2: { project. rewrite !count_cons, !count_nil. cbn.
         split; [repeat constructor | split; lia]. }
    destruct (store_path this) as [p|] eqn:Hp.
    2: { project. rewrite !count_cons, !count_nil. cbn.
         split; [repeat constructor | split; lia]. }
    destruct (fs.mkdirp (fs w) (path.dirname p)) as [f1|err].
    2: { project. cbn. rewrite !count_cons, !count_nil. cbn.
         split; [|split; lia].
         constructor; [reflexivity|]. constructor; [reflexivity|].
         constructor; [exists p; split; [exact Hp | reflexivity] | constructor]. }
    destruct (fs.write f1 p _) as [f2|err]; project; cbn;
      rewrite !count_cons, !count_nil; cbn;
      (split; [|split; lia]);
      (constructor; [reflexivity|]); (constructor; [reflexivity|]);
      (constructor; [exists p; split; [exact Hp | reflexivity]|]);
      (constructor; [exact Hp | constructor]).
Qed.

(** ** Sessions *)

Lemma session_emitted_cons this c cs w :
  emitted (session this (c :: cs) w) =
  emitted (perform this c w) ++ emitted (session this cs (after (perform this c w))).
Proof.
  cbn. unfold bind.
  destruct c; cbn; destruct (returned (session this cs _)); cbn;
    rewrite ?app_nil_r; reflexivity.
Qed.

Lemma perform_get_emitted this w :
  emitted (perform this call_getAuthenticatedAuthClient w) =
  emitted (getAuthenticatedAuthClient this w).
Proof.
  cbn. unfold bind.
  destruct (returned (getAuthenticatedAuthClient this w)); cbn;
    rewrite ?app_nil_r; reflexivity.
Qed.

Lemma preamble_secret_reads this w :
  (forall p, store_path this = Some p -> p <> clientSecretFile this) ->
  count (is_read_of (clientSecretFile this)) (preamble this w) = 1%nat.
Proof.
  intros Hne. unfold preamble. rewrite count_cons, is_read_of_same.
  destruct (cachedCredentials_emitted this w) as [-> | (p & Hp & [-> | ->])];
    rewrite ?count_cons, ?count_nil; cbn; try reflexivity.
  rewrite decide_False by (apply Hne, Hp). reflexivity.
Qed.

(** X15. The client secret is not cached: every call of [login] and of
    [getAuthenticatedAuthClient] reads the client-secret file once, so a
    sequence of n calls reads it n times. (The store is taken to be another
    file than the client secret.) *)
Theorem client_secret_is_read_on_every_call this cs w :
  (forall p, store_path this = Some p -> p <> clientSecretFile this) ->
  count (is_read_of (clientSecretFile this)) (emitted (session this cs w)) = length cs.
Proof.
  intros Hne. revert w. induction cs as [|c cs IH]; intros w; [reflexivity|].
  rewrite session_emitted_cons, count_app, IH. cbn [length].
  enough (count (is_read_of (clientSecretFile this))
            (emitted (perform this c w)) = 1%nat) as -> by reflexivity.
  destruct c as [code|].
  - change (emitted (perform this (call_login code) w))
      with (emitted (login this code w)).
    destruct (returned (createAuthClient this w)) as [client|err] eqn:Hclient.
    2: { rewrite (login_no_client _ _ _ _ Hclient). project.
         rewrite count_cons, is_read_of_same. reflexivity. }
    rewrite (login_run _ _ _ _ Hclient). cbn zeta.
    destruct (getToken_response (upstream w) (requests w) code) as [tokens|err];
      [destruct (store_path this) as [p|];
        [destruct (fs.mkdirp (fs w) (path.dirname p)) as [f1|err];
          [destruct (fs.write f1 p _) as [f2|err]|]|]|];
      project; cbn; rewrite count_cons, is_read_of_same; reflexivity.
  - rewrite perform_get_emitted.
    pose proof (preamble_secret_reads this w Hne) as Hpre.
    destruct (run_cases this w)
      as [(err & _ & ->)
         |(client & _ & [(err & _ & ->)
                         |(creds & _ & [(e & _ & _ & _ & ->)
                                       |(_ & rest & -> & Hrest)])])].
    + rewrite count_cons, is_read_of_same. reflexivity.
    + exact Hpre.
    + rewrite count_app, Hpre. reflexivity.
    + rewrite !count_app, Hpre, test_calls_reads, count_cons. cbn.
      destruct Hrest as [-> | [-> | (p & data & _ & ->)]]; reflexivity.
Qed.

Lemma client_secret_is_read_on_every_call_witness :
  let this := sample_manager (str "auth.json") (Some "RT1") in
  let w := sample_world ∅ 1000000 (token_set (val "RT2") (val 9000000) (val "AT9")) in
  count (is_read_of "secret.json")
    (emitted (session this [call_getAuthenticatedAuthClient; call_login "code";
                            call_getAuthenticatedAuthClient] w)) = 3%nat.
Proof.
  intros this w.
  apply (client_secret_is_read_on_every_call this
           [call_getAuthenticatedAuthClient; call_login "code";
            call_getAuthenticatedAuthClient] w).
  intros p [= <-]. discriminate.
Defined.

(** X16. While the stored access token stays usable the manager is
    silent: if the store holds a token set whose expiry date lies at least
    the margin beyond every reading of the clock, then no sequence of
    [getAuthenticatedAuthClient] calls sends a request to the token endpoint
    or changes a file. *)
Theorem valid_token_needs_no_network this p c e cs : forall w,
  store_path this = Some p ->
  stored w p = Some c ->
  expiry_date c = val e ->
  e <> 0 ->
  (forall n, clock w n + 300000 <= e) ->
  Forall (fun x => x = call_getAuthenticatedAuthClient) cs ->
  count is_request (emitted (session this cs w)) = 0%nat /\
  count is_write (emitted (session this cs w)) = 0%nat /\
  fs (after (session this cs w)) = fs w.
Proof.
  induction cs as [|call cs IH]; intros w Hp Hc He Hne Hclock Hcs.
  - repeat split.
  - apply Forall_cons in Hcs as [-> Hcs].
    rewrite session_emitted_cons, session_cons, !count_app,
      perform_get_emitted, perform_get_after.
    assert (Hstep :
      count is_request (emitted (getAuthenticatedAuthClient this w)) = 0%nat /\
      count is_write (emitted (getAuthenticatedAuthClient this w)) = 0%nat /\
      fs (after (getAuthenticatedAuthClient this w)) = fs w /\
      clock (after (getAuthenticatedAuthClient this w)) = clock w).
    { destruct (returned (createAuthClient this w)) as [client|err] eqn:Hclient.
      - assert (Hu : usable c (now w)).
        { exists e. split; [exact He|]. split; [exact Hne|].
          unfold now. apply Hclock. }
        destruct (reuse_from_store this w client p c Hclient Hp Hc Hu)
          as (_ & Hreq & Hwr & Hfs).
        repeat split; try assumption.
        assert (Hcreds : returned (cachedCredentials this w) = Ok c).
        { rewrite (cachedCredentials_from_store _ _ _ _ Hp Hc). reflexivity. }
        rewrite (run_reuse _ _ _ _ Hclient Hcreds Hu). reflexivity.
      - rewrite (run_no_client _ _ _ Hclient). repeat split. }
    destruct Hstep as (Hreq & Hwr & Hfs & Hclk).
    destruct (IH (after (getAuthenticatedAuthClient this w))) as (IHreq & IHwr & IHfs);
      try assumption.
    + unfold stored. rewrite Hfs. exact Hc.
    + intros n. rewrite Hclk. apply Hclock.
    + rewrite Hreq, Hwr, IHreq, IHwr, IHfs, Hfs. repeat split.
Qed.

Lemma valid_token_needs_no_network_witness :
  let this := sample_manager (str "auth.json") None in
  let c := token_set (val "RT1") (val 9000000) (val "AT0") in
  let w := set_clock (fun _ => 1000) (sample_world (cache_of c) 1000 no_credentials) in
  let cs := [call_getAuthenticatedAuthClient; call_getAuthenticatedAuthClient;
             call_getAuthenticatedAuthClient] in
  count is_request (emitted (session this cs w)) = 0%nat /\
  count is_write (emitted (session this cs w)) = 0%nat /\
  fs (after (session this cs w)) = fs w.
Proof.
  intros this c w cs.
  apply (valid_token_needs_no_network this "auth.json" c 9000000 cs w).
  - reflexivity.
  - reflexivity.
  - reflexivity.
  - discriminate.
  - intros n. cbn. discriminate.
  - repeat constructor.
Defined.
